(** * webscrapper.py: the resolution-and-extraction pipeline

    A shallow embedding of the scraper logic of [src/webscrapper.py]
    (contact extraction, category classification, page and website
    resolution, URL normalisation) and the properties of it that the
    specification states.

    Conventions of the embedding.
    - A Python [str] is a list of characters.  Characters are the code points
      below 256 (the Latin-1 part of Unicode), carried by [ascii].
    - Python [int] is [Z]; [None] is [option]'s [None].
    - A computation that may raise is an [outcome]: [Ok a] or [Raise e];
      [try ... except] is [try_except].
    - The libraries the script calls ([requests], [bs4], [duckduckgo_search],
      [urllib]) are collaborators: a [World] record gives their answers.
    - Python's [re] is embedded as a backtracking matcher over a small
      pattern syntax, with the leftmost, greedy/lazy, first-alternative
      search order of the real engine. *)

From Stdlib Require Import ZArith Ascii String List Lia Bool.
From stdpp Require Import base list gmap strings.

Local Open Scope Z_scope.
Local Open Scope list_scope.

Abbreviation str := (list ascii).

(** String literals of the source, read as Python strings. *)
Definition py (s : string) : str := list_ascii_of_string s.

(** ** Characters *)

Module Char.

Definition code (c : ascii) : N := N_of_ascii c.

Definition between (lo hi : N) (c : ascii) : bool :=
  ((lo <=? code c) && (code c <=? hi))%N.

Definition same (x c : ascii) : bool := (code x =? code c)%N.

Definition lower_az : ascii -> bool := between 97 122.
Definition upper_az : ascii -> bool := between 65 90.
(** The class [\d] on this alphabet: the decimal digits 0-9.  The [\d] of the
    source also matches the decimal digits of other scripts; those lie
    outside the alphabet, and so does markup that holds them. *)
Definition digit : ascii -> bool := between 48 57.

(** [str.lower] on one character: A-Z, and the Latin-1 capitals
    U+00C0..U+00DE other than the multiplication sign U+00D7. *)
Definition has_lower (c : ascii) : bool :=
  upper_az c || (between 192 222 c && negb (code c =? 215)%N).

Definition lower_char (c : ascii) : ascii :=
  if has_lower c then ascii_of_N (code c + 32) else c.

(** [\s] of a [str] pattern: the ASCII white space, the separators
    U+001C..U+001F, NEL U+0085 and the no-break space U+00A0. *)
Definition space (c : ascii) : bool :=
  between 9 13 c || between 28 32 c || (code c =? 133)%N || (code c =? 160)%N.

(** A literal of a pattern compiled with [re.IGNORECASE]. *)
Definition is_nocase (x c : ascii) : bool := same (lower_char x) (lower_char c).

End Char.

(** [str.lower]. *)
Definition lower (s : str) : str := map Char.lower_char s.

(** [s.startswith(p)] and [s.endswith(p)]. *)
Fixpoint startswith (s p : str) : bool :=
  match p, s with
  | [], _ => true
  | _ :: _, [] => false
  | x :: p', c :: s' => Char.same x c && startswith s' p'
  end.

Definition endswith (s p : str) : bool := startswith (reverse s) (reverse p).

(** [p in s] for strings: [p] occurs in [s] as a substring. *)
Fixpoint contains (s p : str) : bool :=
  startswith s p ||
  match s with
  | [] => false
  | _ :: s' => contains s' p
  end.

(** [sep.join(l)]. *)
Fixpoint join (sep : str) (l : list str) : str :=
  match l with
  | [] => []
  | [x] => x
  | x :: l' => x ++ sep ++ join sep l'
  end.

(** Truth value of a Python list or string: non-empty. *)
Definition truthy {A} (l : list A) : bool :=
  match l with [] => false | _ => true end.

(** [a or b] on lists. *)
Definition or_else {A} (a b : list A) : list A := if truthy a then a else b.

(** [l[:n]]: the first [n] elements, and for a negative [n] all but the last
    [-n]. *)
Definition slice_to {A} (n : Z) (l : list A) : list A :=
  if 0 <=? n then take (Z.to_nat n) l
  else take (length l - Z.to_nat (- n))%nat l.

(** [list(dict.fromkeys(l))]: the elements of [l] without repetition, each at
    the place of its first occurrence. *)
Fixpoint fromkeys (seen l : list str) : list str :=
  match l with
  | [] => []
  | x :: l' =>
      if bool_decide (x ∈ seen) then fromkeys seen l'
      else x :: fromkeys (x :: seen) l'
  end.

(** [list(set(l))]: the distinct elements of [l], each once.  The order in
    which a Python set yields them depends on the hashes of the strings and
    is no property of the program; the order chosen here stands for any of
    them, and only membership and distinctness of the result are meant. *)
Definition list_of_set (l : list str) : list str :=
  elements (list_to_set l : gset str).

(** ** Regular expressions: the fragment of [re] the script uses *)

Module Re.

Inductive regex : Type :=
| Eps                                   (* the empty pattern *)
| Set_ (p : ascii -> bool)              (* one character of a set *)
| Cat (r1 r2 : regex)                   (* r1 r2 *)
| Alt (r1 r2 : regex)                   (* r1|r2, r1 tried first *)
| Star (greedy : bool) (r : regex)      (* r* and r*? *)
| Group (r : regex)                     (* ( r ), group 1 *)
| Backref (nocase : bool)               (* \1 *)
| Bol                                   (* ^ *)
| Eol.                                  (* $ *)

Definition Plus (r : regex) : regex := Cat r (Star true r).
Definition Opt (r : regex) : regex := Alt r Eps.

Fixpoint Times (n : nat) (r : regex) : regex :=
  match n with
  | O => Eps
  | S n' => Cat r (Times n' r)
  end.

(** [r{n,}] *)
Definition AtLeast (n : nat) (r : regex) : regex := Cat (Times n r) (Star true r).

Fixpoint Lit (nocase : bool) (s : str) : regex :=
  match s with
  | [] => Eps
  | c :: s' => Cat (Set_ (if nocase then Char.is_nocase c else Char.same c)) (Lit nocase s')
  end.

(** The text a back-reference must find at the head of the input. *)
Fixpoint strip_prefix (nocase : bool) (p s : str) : option str :=
  match p, s with
  | [], _ => Some s
  | _ :: _, [] => None
  | x :: p', c :: s' =>
      if (if nocase then Char.is_nocase x c else Char.same x c)
      then strip_prefix nocase p' s' else None
  end.

(** [$] without [re.MULTILINE]: at the end, or before a final newline. *)
Definition at_eol (s : str) : bool :=
  match s with
  | [] => true
  | [c] => Char.same "010"%char c
  | _ => false
  end.

Section Run.
Context {A : Type}.
(** Length of the whole subject string: [^] holds where all of it remains. *)
Variable whole : nat.

(** [run r g s k]: match [r] at the head of [s] with group 1 bound to
    [g], and hand the new binding and the rest of the input to [k];
    when [k] refuses, try the next way of matching [r]. *)
Fixpoint run (r : regex) (g : option str) (s : str)
    (k : option str -> str -> option A) {struct r} : option A :=
  match r with
  | Eps => k g s
  | Set_ p =>
      match s with
      | c :: s' => if p c then k g s' else None
      | [] => None
      end
  | Cat r1 r2 => run r1 g s (fun g' s' => run r2 g' s' k)
  | Alt r1 r2 =>
      match run r1 g s k with
      | Some x => Some x
      | None => run r2 g s k
      end
  | Star greedy r1 =>
      (fix loop (fuel : nat) (g : option str) (s : str) {struct fuel} : option A :=
         match fuel with
         | O => k g s
         | S fuel' =>
             if greedy then
               match run r1 g s (fun g' s' =>
                       if (length s' <? length s)%nat then loop fuel' g' s' else None) with
               | Some x => Some x
               | None => k g s
               end
             else
               match k g s with
               | Some x => Some x
               | None =>
                   run r1 g s (fun g' s' =>
                     if (length s' <? length s)%nat then loop fuel' g' s' else None)
               end
         end) (length s) g s
  | Group r1 =>
      run r1 g s (fun _ s' => k (Some (take (length s - length s') s)) s')
  | Backref nocase =>
      match g with
      | Some t =>
          match strip_prefix nocase t s with
          | Some s' => k g s'
          | None => None
          end
      | None => None
      end
  | Bol => if (length s =? whole)%nat then k g s else None
  | Eol => if at_eol s then k g s else None
  end.
End Run.

(** One attempt at the head of [s]: the rest of the input after the first
    match the search order finds. *)
Definition match_at (whole : nat) (r : regex) (s : str) : option str :=
  run whole r None s (fun _ s' => Some s').

(** [re.match(r, s)] as a truth value. *)
Definition match_ (r : regex) (s : str) : bool :=
  match match_at (length s) r s with Some _ => true | None => false end.

(** A scan of the subject from left to right cuts it into the matches
    found and the characters between them. *)
Inductive piece : Type :=
| Skip (c : ascii)
| Hit (m : str).

Definition piece_text (p : piece) : str :=
  match p with Skip c => [c] | Hit m => m end.

(** [scan whole r s inside]: [inside] counts the characters of [s] that
    still belong to the match found last.  All patterns of the script start
    with a mandatory character, so a match is never empty; an empty match
    counts as none. *)
Fixpoint scan (whole : nat) (r : regex) (s : str) (inside : nat) : list piece :=
  match s with
  | [] => []
  | c :: s' =>
      match inside with
      | S n => scan whole r s' n
      | O =>
          match match_at whole r s with
          | Some rest =>
              match (length s - length rest)%nat with
              | O => Skip c :: scan whole r s' O
              | S n => Hit (take (S n) s) :: scan whole r s' n
              end
          | None => Skip c :: scan whole r s' O
          end
      end
  end.

Definition pieces (r : regex) (s : str) : list piece := scan (length s) r s O.

(** [re.findall(r, s)] for a pattern without capturing groups. *)
Definition findall (r : regex) (s : str) : list str :=
  omap (fun p => match p with Hit m => Some m | Skip _ => None end) (pieces r s).

(** [re.sub(r, '', s)]. *)
Definition delete_all (r : regex) (s : str) : str :=
  mjoin (omap (fun p => match p with Skip c => Some [c] | Hit _ => None end) (pieces r s)).

End Re.

(** ** Contact extractor *)

Import Re.

(** [fold] of [Cat]: the parts of a pattern, in order. *)
Definition Seq (rs : list regex) : regex := foldr Cat Eps rs.

Definition any_of (ps : list (ascii -> bool)) (c : ascii) : bool :=
  existsb (fun p => p c) ps.

Definition one_of (s : string) (c : ascii) : bool :=
  existsb (fun x => Char.same x c) (py s).

Definition letter : ascii -> bool := any_of [Char.lower_az; Char.upper_az].

(** [[a-zA-Z0-9_.+-]] *)
Definition local_char : ascii -> bool := any_of [letter; Char.digit; one_of "_.+-"].
(** [[a-zA-Z0-9-]] *)
Definition label_char : ascii -> bool := any_of [letter; Char.digit; one_of "-"].
(** [[a-zA-Z0-9-.]] *)
Definition tail_char : ascii -> bool := any_of [letter; Char.digit; one_of "-."].
(** [[\s-]] *)
Definition gap_char : ascii -> bool := any_of [Char.space; one_of "-"].
(** [.] under [re.DOTALL] *)
Definition any_char : ascii -> bool := fun _ => true.
(** [\D] *)
Definition non_digit (c : ascii) : bool := negb (Char.digit c).

(** The patterns, as the source writes them, and as syntax trees. *)
Definition script_style_src : string := "<(script|style).*?>.*?</\1>".
Definition email_src : string := "[a-zA-Z0-9_.+-]+@[a-zA-Z0-9-]+\.[a-zA-Z0-9-.]+".
Definition strict_email_src : string := "^[a-zA-Z0-9_.+-]+@[a-zA-Z0-9-]+\.[a-zA-Z]{2,}$".
Definition phone_src : string := "(?:\+91[\s-]*)?[6-9](?:[\s-]*\d){9}".

(** [script_style_src], compiled with [re.DOTALL|re.IGNORECASE]. *)
Definition script_style_re : regex :=
  Seq [Lit true (py "<");
       Group (Alt (Lit true (py "script")) (Lit true (py "style")));
       Star false (Set_ any_char);
       Lit true (py ">");
       Star false (Set_ any_char);
       Lit true (py "</");
       Backref true;
       Lit true (py ">")].

(** [email_src] *)
Definition email_re : regex :=
  Seq [Plus (Set_ local_char); Lit false (py "@"); Plus (Set_ label_char);
       Lit false (py "."); Plus (Set_ tail_char)].

(** [strict_email_src] *)
Definition strict_email_re : regex :=
  Seq [Bol; Plus (Set_ local_char); Lit false (py "@"); Plus (Set_ label_char);
       Lit false (py "."); AtLeast 2 (Set_ letter); Eol].

(** [phone_src] *)
Definition phone_re : regex :=
  Seq [Opt (Seq [Lit false (py "+91"); Star true (Set_ gap_char)]);
       Set_ (one_of "6789");
       Times 9 (Seq [Star true (Set_ gap_char); Set_ Char.digit])].

Definition asset_extensions : list str :=
  map py [".js"; ".css"; ".png"; ".jpg"; ".jpeg"; ".gif"; ".svg"]%string.

(** The loop of [clean_emails]: the list [valid_emails] it builds. *)
Fixpoint valid_emails (emails : list str) : list str :=
  match emails with
  | [] => []
  | email :: rest =>
      let email := lower email in
      if existsb (endswith email) asset_extensions then valid_emails rest
      else if negb (contains email (py "@")) then valid_emails rest
      else if match_ strict_email_re email then email :: valid_emails rest
      else valid_emails rest
  end.

Definition clean_emails (emails : list str) : list str :=
  list_of_set (valid_emails emails).

(** The loop of [clean_phones]: the list [valid_phones] it builds. *)
Fixpoint valid_phones (phones : list str) : list str :=
  match phones with
  | [] => []
  | p :: rest =>
      let digits := delete_all (Set_ non_digit) p in
      if (length digits =? 10)%nat &&
         match digits with c :: _ => one_of "6789" c | [] => false end
      then digits :: valid_phones rest
      else valid_phones rest
  end.

Definition clean_phones (phones : list str) (max_count : Z) : list str :=
  slice_to max_count (fromkeys [] (valid_phones phones)).

Definition extract_contact_info (html : str) (max_phones : Z) : list str * list str :=
  let clean_html := delete_all script_style_re html in
  let raw_emails := findall email_re clean_html in
  let emails := clean_emails raw_emails in
  let raw_phones := findall phone_re clean_html in
  let phones := clean_phones raw_phones max_phones in
  (emails, phones).


(** ** Category classifier *)

(** What [bs4] exposes of a tag: its name, its attribute dictionary, and
    [.string], the single text child when there is one. *)
Record Tag : Type := {
  tag_name : str;
  tag_attrs : gmap str str;
  tag_string : option str
}.

(** A parsed document: its tags in document order. *)
Abbreviation Soup := (list Tag).

(** [tag.get(key)] *)
Definition tag_get (t : Tag) (key : str) : option str := tag_attrs t !! key.

(** [soup.find(name, attrs={key: value})]: the first tag of that name whose
    attribute [key] is [value]. *)
Fixpoint soup_find (name key value : str) (soup : Soup) : option Tag :=
  match soup with
  | [] => None
  | t :: soup' =>
      if bool_decide (tag_name t = name) && bool_decide (tag_get t key = Some value)
      then Some t else soup_find name key value soup'
  end.

(** [soup.title]: the first [title] tag. *)
Fixpoint soup_title (soup : Soup) : option Tag :=
  match soup with
  | [] => None
  | t :: soup' =>
      if bool_decide (tag_name t = py "title") then Some t else soup_title soup'
  end.

(** [CATEGORY_KEYWORDS], in the order the dictionary is written. *)
Definition CATEGORY_KEYWORDS : list (str * list str) :=
  map (fun '(c, kws) => (py c, map py kws))
  [("Skincare", ["skincare"; "skin care"; "face cream"; "moisturizer"; "serum"; "lotion"; "cleanser"]);
   ("Hair Care", ["shampoo"; "conditioner"; "hair oil"; "haircare"; "hair mask"]);
   ("Footwear", ["shoes"; "sneakers"; "sandals"; "boots"; "footwear"]);
   ("Fragnances",
      ["perfume"; "fragrance"; "cologne"; "deodorant"; "scent";
       "aroma"; "incense"; "essential oil"; "diffuser"; "attar"; "room spray"; "aromatherapy"]);
   ("Personal Care", ["personal care"; "toothpaste"; "soap"; "body wash"; "hygiene"]);
   ("Clothing", ["clothing"; "apparel"; "t-shirt"; "jeans"; "dress"; "fashion"; "wear"]);
   ("Electronics", ["laptop"; "mobile"; "electronics"; "gadgets"; "headphones"; "smartphone"]);
   ("Jewelry", ["jewelry"; "ring"; "necklace"; "bracelet"; "gold"; "silver"]);
   ("Furniture", ["furniture"; "sofa"; "table"; "chair"; "interior"]);
   ("Food & Beverages", ["food"; "beverage"; "snacks"; "drink"; "restaurant"; "cafe"]);
   ("Other", [])]%string.

(** The variable [text] of [extract_category] when the keyword loop starts.
    A tag is always true as a condition; [None] and the empty string are
    false. *)
Definition category_text (soup : Soup) : str :=
  let meta_desc :=
    match soup_find (py "meta") (py "name") (py "description") soup with
    | Some t => Some t
    | None => soup_find (py "meta") (py "property") (py "og:description") soup
    end in
  let from_title :=
    match soup_title soup with
    | Some t =>
        match tag_string t with
        | Some s => if truthy s then lower s else []
        | None => []
        end
    | None => []
    end in
  match meta_desc with
  | Some t =>
      match tag_get t (py "content") with
      | Some c => if truthy c then lower c else from_title
      | None => from_title
      end
  | None => from_title
  end.

(** The keyword loop: the first entry of the table one of whose keywords
    occurs in [text]. *)
Fixpoint first_category (text : str) (table : list (str * list str)) : option str :=
  match table with
  | [] => None
  | (category, keywords) :: table' =>
      if existsb (contains text) keywords then Some category
      else first_category text table'
  end.

Definition extract_category (soup : Soup) : str :=
  match first_category (category_text soup) CATEGORY_KEYWORDS with
  | Some category => category
  | None => py "Other"
  end.

(** ** Exceptions and collaborators *)

(** An exception: its class and [str(e)].  Only subclasses of [Exception]
    are modelled. *)
Record exn : Type := Exception { exn_class : str; exn_text : str }.

Inductive outcome (A : Type) : Type :=
| Ok (a : A)
| Raise (e : exn).
Arguments Ok {A} a.
Arguments Raise {A} e.

#[global] Instance outcome_ret : MRet outcome := fun _ a => Ok a.
#[global] Instance outcome_bind : MBind outcome := fun _ _ f m =>
  match m with
  | Ok a => f a
  | Raise e => Raise e
  end.

(** [try: body except Exception as e: handler(e)] *)
Definition try_except {A} (body : outcome A) (handler : exn -> outcome A) : outcome A :=
  match body with
  | Ok a => Ok a
  | Raise e => handler e
  end.

(** A [requests] response: [.text], and what [.raise_for_status()] does. *)
Record Response : Type := {
  resp_text : str;
  resp_raise_for_status : outcome unit
}.

(** One search result of [duckduckgo_search]: a dictionary of strings. *)
Abbreviation SearchResult := (gmap str str).

(** The answers of the libraries the script calls. *)
Record World : Type := {
  (** [requests.get(url, headers=..., timeout=timeout, allow_redirects=True)] *)
  requests_get : str -> Z -> outcome Response;
  (** [BeautifulSoup(html, parser)] *)
  BeautifulSoup : str -> str -> outcome Soup;
  (** [urljoin(base, path)] *)
  urljoin : str -> str -> outcome str;
  (** [DDGS().text(q, max_results=1, ...)], with the region and safe-search
      settings of the source: the results it yields *)
  ddgs_text : str -> outcome (list SearchResult)
}.

(** The dictionary [scrape_website] returns. *)
Record Result : Type := {
  Website : str;
  Emails : str;
  Phone_Numbers : str;
  Category : str
}.

Section Pipeline.
Variable W : World.

Definition fetch_html (url : str) (timeout : Z) : outcome str :=
  resp ← requests_get W url timeout;
  _ ← resp_raise_for_status resp;
  mret (resp_text resp).

Definition get_soup (html : str) : outcome Soup :=
  try_except (BeautifulSoup W html (py "lxml"))
             (fun _ => BeautifulSoup W html (py "html.parser")).

Definition scrape_contact_page (base_url : str) (max_phones : Z)
    : outcome (list str * list str) :=
  try_except
    (contact_url ← urljoin W base_url (py "/contact");
     html ← fetch_html contact_url 8;
     mret (extract_contact_info html max_phones))
    (fun _ => mret ([], [])).

Definition scrape_website (url : str) (max_phones : Z) : outcome Result :=
  try_except
    (html ← fetch_html url 15;
     soup ← get_soup html;
     let '(emails, phones) := extract_contact_info html max_phones in
     '(emails, phones) ←
       (if negb (truthy emails) then
          '(c_emails, c_phones) ← scrape_contact_page url max_phones;
          mret (or_else emails c_emails, or_else phones c_phones)
        else mret (emails, phones));
     let category := extract_category soup in
     mret {| Website := url;
             Emails := join (py ", ") emails;
             Phone_Numbers := join (py ", ") phones;
             Category := category |})
    (fun e =>
       mret {| Website := url;
               Emails := [];
               Phone_Numbers := [];
               Category := py "Failed to fetch: " ++ exn_text e |}).

(** The loop of [get_website_from_search]: the first result with a
    non-empty [href], or else [link]. *)
Fixpoint first_href (results : list SearchResult) : option str :=
  match results with
  | [] => None
  | r :: results' =>
      let href :=
        match r !! py "href" with
        | Some h => if truthy h then Some h else r !! py "link"
        | None => r !! py "link"
        end in
      match href with
      | Some h => if truthy h then Some h else first_href results'
      | None => first_href results'
      end
  end.

Definition get_website_from_search (company_name : str) : outcome (option str) :=
  try_except
    (let q := company_name ++ py " official website" in
     results ← ddgs_text W q;
     mret (first_href results))
    (fun _ => mret None).

End Pipeline.

(** [normalize] of the URL input path. *)
Definition normalize (u : str) : str :=
  if existsb (startswith u) [py "http://"; py "https://"] then u
  else py "https://" ++ u.

(** ** Notions the properties are stated with *)

(** *** Declarative reading of a pattern

    [matches whole r g s g' s']: some way of matching [r] at the head of [s]
    leaves [s'], turning the binding [g] of group 1 into [g']. *)
Inductive matches (whole : nat) : regex -> option str -> str -> option str -> str -> Prop :=
| m_eps g s : matches whole Eps g s g s
| m_set p c g s : p c = true -> matches whole (Set_ p) g (c :: s) g s
| m_cat r1 r2 g s g1 s1 g2 s2 :
    matches whole r1 g s g1 s1 -> matches whole r2 g1 s1 g2 s2 ->
    matches whole (Cat r1 r2) g s g2 s2
| m_alt_l r1 r2 g s g' s' :
    matches whole r1 g s g' s' -> matches whole (Alt r1 r2) g s g' s'
| m_alt_r r1 r2 g s g' s' :
    matches whole r2 g s g' s' -> matches whole (Alt r1 r2) g s g' s'
| m_star_stop b r g s : matches whole (Star b r) g s g s
| m_star_more b r g s g1 s1 g2 s2 :
    matches whole r g s g1 s1 -> matches whole (Star b r) g1 s1 g2 s2 ->
    matches whole (Star b r) g s g2 s2
| m_group r g s g' s' :
    matches whole r g s g' s' ->
    matches whole (Group r) g s (Some (take (length s - length s') s)) s'
| m_backref nocase t s s' :
    strip_prefix nocase t s = Some s' ->
    matches whole (Backref nocase) (Some t) s (Some t) s'
| m_bol g s : length s = whole -> matches whole Bol g s g s
| m_eol g s : at_eol s = true -> matches whole Eol g s g s.

(** The text a list of pieces spells. *)
Definition pieces_text (ps : list piece) : str := mjoin (map piece_text ps).

(** The matches of a scan with the offset each starts at. *)
Fixpoint hits_from (offset : nat) (ps : list piece) : list (nat * str) :=
  match ps with
  | [] => []
  | Skip _ :: ps' => hits_from (S offset) ps'
  | Hit m :: ps' => (offset, m) :: hits_from (offset + length m) ps'
  end.

(** [re.finditer]: where each match of [findall] starts, and what it is. *)
Definition finditer (r : regex) (s : str) : list (nat * str) :=
  hits_from 0 (pieces r s).

(** [m] is what [s] holds from offset [o] on. *)
Definition occurs_at (s : str) (o : nat) (m : str) : Prop :=
  take (length m) (drop o s) = m.

(** The matches lie in [s] from left to right without overlap: each at its
    offset, none empty, none starting before [from] or before the end of the
    one before it. *)
Fixpoint laid_out (s : str) (from : nat) (hits : list (nat * str)) : Prop :=
  match hits with
  | [] => True
  | (o, m) :: hits' =>
      (from <= o)%nat /\ m <> [] /\ occurs_at s o m /\ laid_out s (o + length m) hits'
  end.

(** Index of the first element of [l] that satisfies [p]. *)
Fixpoint first_index {A} (p : A -> bool) (l : list A) : option nat :=
  match l with
  | [] => None
  | x :: l' => if p x then Some O else S <$> first_index p l'
  end.

(** Index of the first occurrence of [x]. *)
Abbreviation index_of x l := (first_index (fun y : str => bool_decide (y = x)) l).


(** *** Phones *)

(** The digits of a candidate: what is left once [re.sub] has deleted every
    match of [\D]. *)
Definition digits_of (p : str) : str := filter (fun c => Char.digit c = true) p.

(** The test [clean_phones] puts a digit string to. *)
Definition phone_ok (digits : str) : bool :=
  (length digits =? 10)%nat &&
  match digits with c :: _ => one_of "6789" c | [] => false end.

(** Ten characters of the class [\d], the first of them 6, 7, 8 or 9. *)
Definition indian_mobile (p : str) : Prop :=
  length p = 10%nat /\ Forall (fun c => Char.digit c = true) p /\
  exists c rest, p = c :: rest /\ c ∈ py "6789".

(** *** Emails *)

(** The part of an address after its first [@]. *)
Fixpoint domain_of (e : str) : str :=
  match e with
  | [] => []
  | c :: e' => if Char.same "@" c then e' else domain_of e'
  end.

Definition dots (s : str) : nat := length (filter (fun c => c = "."%char) s).

(** *** Classifier *)

(** The taxonomy as the specification lists it. *)
Definition spec_taxonomy : list str :=
  map py ["Skincare"; "Hair Care"; "Footwear"; "Fragrances"; "Personal Care";
          "Clothing"; "Electronics"; "Jewelry"; "Furniture"; "Food & Beverages";
          "Other"]%string.

(** The labels of the table of the source. *)
Definition code_taxonomy : list str := map fst CATEGORY_KEYWORDS.

(** The content of the first tag found, when it is a non-empty string. *)
Definition usable_content (t : option Tag) : option str :=
  match t with
  | Some t =>
      match tag_get t (py "content") with
      | Some c => if truthy c then Some c else None
      | None => None
      end
  | None => None
  end.

(** The text source as the specification words it: description content,
    else og:description content, else title text, else the empty string, a
    tag without usable content counting as absent. *)
Definition spec_category_text (soup : Soup) : str :=
  match usable_content (soup_find (py "meta") (py "name") (py "description") soup) with
  | Some c => lower c
  | None =>
      match usable_content (soup_find (py "meta") (py "property") (py "og:description") soup) with
      | Some c => lower c
      | None =>
          match soup_title soup with
          | Some t =>
              match tag_string t with
              | Some s => lower s
              | None => []
              end
          | None => []
          end
      end
  end.

Definition meta_tag (key value content : string) : Tag :=
  {| tag_name := py "meta";
     tag_attrs := {[ py key := py value; py "content" := py content ]};
     tag_string := None |}.

Definition title_tag (text : string) : Tag :=
  {| tag_name := py "title"; tag_attrs := ∅; tag_string := Some (py text) |}.

(** A page whose description is about perfume. *)
Definition perfume_soup : Soup :=
  [meta_tag "name" "description" "Luxury perfume for every occasion"; title_tag "Maison"].

(** A page with an empty description, an og:description and a title. *)
Definition empty_description_soup : Soup :=
  [meta_tag "name" "description" EmptyString;
   meta_tag "property" "og:description" "Buy the best shampoo and conditioner";
   title_tag "Shop"].

(** *** Page resolver *)

(** The primary page could not be had: [requests.get] raised (network error,
    timeout), [raise_for_status] raised (error status), or both parsers
    raised. *)
Inductive page_failure (W : World) (url : str) (e : exn) : Prop :=
| failure_get : requests_get W url 15 = Raise e -> page_failure W url e
| failure_status resp :
    requests_get W url 15 = Ok resp -> resp_raise_for_status resp = Raise e ->
    page_failure W url e
| failure_parse resp e1 :
    requests_get W url 15 = Ok resp -> resp_raise_for_status resp = Ok tt ->
    BeautifulSoup W (resp_text resp) (py "lxml") = Raise e1 ->
    BeautifulSoup W (resp_text resp) (py "html.parser") = Raise e ->
    page_failure W url e.

(** The primary page was fetched and parsed. *)
Definition page_loaded (W : World) (url html : str) (soup : Soup) : Prop :=
  fetch_html W url 15 = Ok html /\ get_soup W html = Ok soup.

Definition failure_result (url : str) (e : exn) : Result :=
  {| Website := url; Emails := []; Phone_Numbers := [];
     Category := py "Failed to fetch: " ++ exn_text e |}.

(** *** URL input *)

(** The input carries a scheme: [http://] or [https://] leads it. *)
Definition has_scheme (u : str) : Prop :=
  exists rest, u = py "http://" ++ rest \/ u = py "https://" ++ rest.

(** *** Sample inputs *)

Definition scenario_A : str :=
  py "Contact us at Info@Shop.com or call +91 98765 43210".


(** The same number written three ways, and another one. *)
Definition repeated_page : str :=
  py "Call 98765 43210 or 9123456789, again 98765-43210 and 9876543210".

(** Addresses with one and with two dots in the domain. *)
Definition mixed_candidates : list str :=
  [py "user@mail.example.com"; py "Info@Shop.com"].

Definition ok_response (body : string) : Response :=
  {| resp_text := py body; resp_raise_for_status := Ok tt |}.

(** A site whose home page shows a phone but no email, and whose contact page
    shows an email and another phone. *)
Definition sample_world : World :=
  {| requests_get := fun url _ =>
       if bool_decide (url = py "https://shop.example") then
         Ok (ok_response "<title>Shop</title> Call 98765 43210")
       else if bool_decide (url = py "https://shop.example/contact") then
         Ok (ok_response "Write to Sales@Shop.example or call 9123456789")
       else Raise (Exception (py "ConnectionError") (py "unreachable"));
     BeautifulSoup := fun _ _ => Ok [title_tag "Shop"];
     urljoin := fun base path => Ok (base ++ path);
     ddgs_text := fun q =>
       if bool_decide (q = py "Shop official website") then
         Ok [ {[ py "title" := py "Shop"; py "href" := py "https://shop.example" ]} ]
       else Ok [] |}.

(** ** Pipeline driver: the two loops of [main] *)

(** A row of [result_data]: the dictionary of [scrape_website] with the key
    [Company] added, or the not-found dictionary. *)
Record Row : Type := {
  Company : str;
  Data : Result
}.

(** The dictionary appended when the search finds no website. *)
Definition not_found (company : str) : Row :=
  {| Company := company;
     Data := {| Website := py "Not Found"; Emails := []; Phone_Numbers := [];
                Category := py "Website not found" |} |}.

(** The loop over the companies of the Excel path.  The progress display and
    the pause between two companies are left out. *)
Fixpoint scrape_companies (W : World) (companies : list str) (max_phones : Z)
    : outcome (list Row) :=
  match companies with
  | [] => mret []
  | company :: rest =>
      website ← get_website_from_search W company;
      row ← match website with
            | Some url =>
                if truthy url then
                  data ← scrape_website W url max_phones;
                  mret {| Company := company; Data := data |}
                else mret (not_found company)
            | None => mret (not_found company)
            end;
      rows ← scrape_companies W rest max_phones;
      mret (row :: rows)
  end.

(** [str.isspace] on one character. *)
Definition isspace : ascii -> bool := Char.space.

(** [s.lstrip()], [s.rstrip()] and [s.strip()]. *)
Fixpoint lstrip (s : str) : str :=
  match s with
  | [] => []
  | c :: s' => if isspace c then lstrip s' else s
  end.

Definition rstrip (s : str) : str := reverse (lstrip (reverse s)).

Definition strip (s : str) : str := rstrip (lstrip s).

(** The line boundaries of [str.splitlines]: LF, VT, FF, CR, the separators
    U+001C..U+001E and NEL U+0085. *)
Definition line_break (c : ascii) : bool :=
  Char.between 10 13 c || Char.between 28 30 c || (Char.code c =? 133)%N.

(** [s.splitlines()], with [line] the part of the current line read so far:
    CR LF is one boundary, and a boundary at the very end opens no line. *)
Fixpoint splitlines_from (line s : str) : list str :=
  match s with
  | [] => if truthy line then [line] else []
  | c :: s' =>
      if line_break c then
        line ::
        match s' with
        | c' :: s'' =>
            if Char.same "013" c && Char.same "010" c' then splitlines_from [] s''
            else splitlines_from [] s'
        | [] => []
        end
      else splitlines_from (line ++ [c]) s'
  end.

Definition splitlines (s : str) : list str := splitlines_from [] s.

(** The list [urls_to_scrape] before normalisation: the non-blank lines of
    the text area and the single-URL field, each stripped. *)
Definition url_inputs (urls_text single_url : str) : list str :=
  (if truthy (strip urls_text)
   then map strip (filter (fun u => truthy (strip u) = true) (splitlines urls_text))
   else []) ++
  (if truthy (strip single_url) then [strip single_url] else []).

(** [s.replace(old, "")] for a non-empty [old]: the occurrences of [old] are
    removed from left to right; [skip] counts the characters still to drop of
    the occurrence found last. *)
Fixpoint remove_all (old s : str) (skip : nat) : str :=
  match s with
  | [] => []
  | c :: s' =>
      match skip with
      | S n => remove_all old s' n
      | O =>
          if truthy old && startswith s old then remove_all old s' (length old - 1)
          else c :: remove_all old s' O
      end
  end.

(** [s.split(sep)[0]] for a one-character [sep]. *)
Fixpoint before_first (sep : ascii) (s : str) : str :=
  match s with
  | [] => []
  | c :: s' => if Char.same sep c then [] else c :: before_first sep s'
  end.

(** The display name of the URL path:
    [netloc.replace("www.", "").split(".")[0]]. *)
Definition company_name_of (netloc : str) : str :=
  before_first "." (remove_all (py "www.") netloc O).

(** The loop over the URLs of the URL path; [netloc_of url] is
    [urlparse(url).netloc], which may raise. *)
Fixpoint scrape_urls (W : World) (netloc_of : str -> outcome str)
    (urls : list str) (max_phones : Z) : outcome (list Row) :=
  match urls with
  | [] => mret []
  | url :: rest =>
      netloc ← netloc_of url;
      data ← scrape_website W url max_phones;
      rows ← scrape_urls W netloc_of rest max_phones;
      mret ({| Company := company_name_of netloc; Data := data |} :: rows)
  end.

(** The URL path from the two input fields on: [None] stands for the warning
    shown when no URL was given. *)
Definition scrape_url_inputs (W : World) (netloc_of : str -> outcome str)
    (urls_text single_url : str) (max_phones : Z) : outcome (option (list Row)) :=
  let urls_to_scrape := url_inputs urls_text single_url in
  if negb (truthy urls_to_scrape) then mret None
  else
    rows ← scrape_urls W netloc_of (map normalize urls_to_scrape) max_phones;
    mret (Some rows).

(** *** Notions for the further properties *)

(** The link a search result carries: [r.get("href") or r.get("link")]
    when that is a non-empty string. *)
Definition link_of (r : SearchResult) : option str :=
  match r !! py "href" with
  | Some h => if truthy h then Some h else
                match r !! py "link" with
                | Some l => if truthy l then Some l else None
                | None => None
                end
  | None => match r !! py "link" with
            | Some l => if truthy l then Some l else None
            | None => None
            end
  end.

(** The contact page of [url] could not be had: [urljoin] raised, or the
    request with the short timeout did. *)
Definition contact_unavailable (W : World) (url : str) : Prop :=
  (exists e, urljoin W url (py "/contact") = Raise e) \/
  (exists contact_url e,
     urljoin W url (py "/contact") = Ok contact_url /\
     fetch_html W contact_url 8 = Raise e).

(** The contact page of [url] was fetched, with the short timeout. *)
Definition contact_loaded (W : World) (url html : str) : Prop :=
  exists contact_url,
    urljoin W url (py "/contact") = Ok contact_url /\
    fetch_html W contact_url 8 = Ok html.

(** A search whose first result carries no link and whose second does. *)
Definition second_result_world : World :=
  {| requests_get := fun _ _ => Raise (Exception (py "Timeout") (py "timed out"));
     BeautifulSoup := fun _ _ => Ok [];
     urljoin := fun base path => Ok (base ++ path);
     ddgs_text := fun _ =>
       Ok [ {[ py "title" := py "An advertisement" ]};
            {[ py "title" := py "Shop"; py "link" := py "https://shop.example" ]} ] |}.

(** What the company loop appends for one company. *)
Definition company_row (W : World) (max_phones : Z) (company : str) (row : Row) : Prop :=
  Company row = company /\
  ((get_website_from_search W company = Ok None /\ row = not_found company) \/
   (exists url,
      get_website_from_search W company = Ok (Some url) /\ url <> [] /\
      scrape_website W url max_phones = Ok (Data row) /\
      Website (Data row) = url)).

(** What the URL loop appends for one URL. *)
Definition url_row (W : World) (netloc_of : str -> outcome str) (max_phones : Z)
    (url : str) (row : Row) : Prop :=
  exists netloc,
    netloc_of url = Ok netloc /\
    Company row = company_name_of netloc /\
    scrape_website W url max_phones = Ok (Data row) /\
    Website (Data row) = url.

(** The characters an extracted email is made of: lower-case letters, digits
    and the signs [_ . + - @]. *)
Definition email_alphabet (c : ascii) : bool :=
  Char.lower_az c || Char.digit c || one_of "_.+-@" c.

(** A field left blank: nothing but white space. *)
Definition blank (s : str) : Prop := Forall (fun c => isspace c = true) s.

(** A search that always fails, and a site that answers every request with
    the same page. *)
Definition offline_world : World :=
  {| requests_get := fun _ _ => Raise (Exception (py "Timeout") (py "timed out"));
     BeautifulSoup := fun _ _ => Ok [];
     urljoin := fun base path => Ok (base ++ path);
     ddgs_text := fun _ => Raise (Exception (py "SearchError") (py "rate limited")) |}.

(** A site whose home page shows no email and whose contact page is gone. *)
Definition no_contact_world : World :=
  {| requests_get := fun url _ =>
       if bool_decide (url = py "https://shop.example") then
         Ok (ok_response "<title>Shop</title> Call 98765 43210")
       else Raise (Exception (py "HTTPError") (py "404 Not Found"));
     BeautifulSoup := fun _ _ => Ok [title_tag "Shop"];
     urljoin := fun base path => Ok (base ++ path);
     ddgs_text := fun _ => Ok [] |}.

(** The host part of a URL that starts with [https://], for the samples. *)
Definition sample_netloc (url : str) : outcome str :=
  Ok (before_first "/" (drop 8 url)).

(** A parser that refuses a URL with a bracket, as [urlparse] refuses an
    unclosed IPv6 host. *)
Definition bracket_netloc (url : str) : outcome str :=
  if contains url (py "[") then Raise (Exception (py "ValueError") (py "Invalid IPv6 URL"))
  else sample_netloc url.

(** What was typed into the text area for the samples: two URLs, one without
    a scheme, with a blank line and stray blanks. *)
Definition sample_urls_text : str :=
  py "shop.example" ++ ["010"%char; "010"%char] ++ py "  https://down.example  ".

(** The response [requests] builds for a final answer with that status and
    body: [raise_for_status] raises its [HTTPError] for the statuses
    400..599 and returns for every other status. *)
Definition requests_response (status : Z) (body : string) (http_error : exn) : Response :=
  {| resp_text := py body;
     resp_raise_for_status :=
       if (400 <=? status) && (status <? 600) then Raise http_error else Ok tt |}.

(** A site that answers every request with status 999 and a page. *)
Definition denied_world : World :=
  {| requests_get := fun _ _ =>
       Ok (requests_response 999 "Request denied. Write to Info@Shop.com"
             (Exception (py "HTTPError") (py "999 Error")));
     BeautifulSoup := fun _ _ => Ok [title_tag "Request denied"];
     urljoin := fun base path => Ok (base ++ path);
     ddgs_text := fun _ => Ok [] |}.

(** A scheme as a URL writes it: a letter, then letters, digits, [+], [-] or
    [.], and then [://]. *)
Fixpoint scheme_tail (s : str) : bool :=
  match s with
  | [] => false
  | c :: s' =>
      if any_of [letter; Char.digit; one_of "+-."] c then scheme_tail s'
      else startswith s (py "://")
  end.

(** The input carries a scheme of any name and in any letter case. *)
Definition carries_scheme (u : str) : bool :=
  match u with
  | c :: rest => letter c && scheme_tail rest
  | [] => false
  end.

(** Unfolds the plumbing of [outcome]. *)
Ltac run_outcome :=
  unfold mbind, outcome_bind, mret, outcome_ret, try_except in *; cbn in *.

(** * Properties *)

(** ** Strings *)

Lemma same_eq x c : Char.same x c = true <-> x = c.
Proof.
  unfold Char.same, Char.code. rewrite N.eqb_eq. split; [|congruence].
  intros H. rewrite <- (ascii_N_embedding x), <- (ascii_N_embedding c). congruence.
Qed.

Lemma startswith_prefix s p : startswith s p = true <-> p `prefix_of` s.
Proof.
  revert s. induction p as [|x p IH]; intros s; simpl.
  - split; [intros _; apply prefix_nil | by destruct s].
  - destruct s as [|c s].
    + split; [done | intros [k Hk]; discriminate].
    + simpl. rewrite andb_true_iff, same_eq, IH. split.
      * intros [-> Hp]. by apply prefix_cons.
      * intros [k Hk]. injection Hk as -> ->. split; [done | by exists k].
Qed.

Lemma endswith_suffix s p : endswith s p = true <-> p `suffix_of` s.
Proof. unfold endswith. by rewrite startswith_prefix, suffix_prefix_reverse. Qed.

Lemma contains_char s c : contains s [c] = true <-> c ∈ s.
Proof.
  induction s as [|x s IH].
  - split; [done | by intros ?%elem_of_nil].
  - change (contains (x :: s) [c]) with (startswith (x :: s) [c] || contains s [c]).
    rewrite orb_true_iff, IH, startswith_prefix, elem_of_cons. split.
    + intros [[k Hk]|?]; [left; by injection Hk | by right].
    + intros [->|?]; [left; by exists s | by right].
Qed.

Lemma lower_char_fixed c : Char.lower_char (Char.lower_char c) = Char.lower_char c.
Proof. destruct c as [[] [] [] [] [] [] [] []]; reflexivity. Qed.

Lemma lower_char_not_upper c : Char.upper_az (Char.lower_char c) = false.
Proof. destruct c as [[] [] [] [] [] [] [] []]; reflexivity. Qed.

Lemma lower_idempotent s : lower (lower s) = lower s.
Proof. unfold lower. rewrite map_map. apply map_ext, lower_char_fixed. Qed.

Lemma lower_no_upper s : Forall (fun c => Char.upper_az c = false) (lower s).
Proof. unfold lower. apply Forall_map, Forall_true, lower_char_not_upper. Qed.

(** ** The matcher finds only matches *)

Section Soundness.
Context {A : Type}.
Variable whole : nat.

Lemma run_sound r : forall g s (k : option str -> str -> option A) x,
  run whole r g s k = Some x ->
  exists g' s', matches whole r g s g' s' /\ k g' s' = Some x.
Proof.
  induction r as [|p|r1 IH1 r2 IH2|r1 IH1 r2 IH2|greedy r1 IH1|r1 IH1|nocase| |];
    intros g s k x; simpl.
  - intros H. exists g, s. split; [constructor | done].
  - destruct s as [|c s']; [done|].
    destruct (p c) eqn:Hp; [|done].
    intros H. exists g, s'. split; [by constructor | done].
  - intros H. apply IH1 in H as (g1 & s1 & H1 & H).
    apply IH2 in H as (g2 & s2 & H2 & H).
    exists g2, s2. split; [by econstructor | done].
  - destruct (run whole r1 g s k) eqn:E1.
    + intros [= ->]. apply IH1 in E1 as (g' & s' & H1 & H).
      exists g', s'. split; [by apply m_alt_l | done].
    + intros H. apply IH2 in H as (g' & s' & H2 & H).
      exists g', s'. split; [by apply m_alt_r | done].
  - generalize (length s) as fuel. intros fuel. revert g s x.
    induction fuel as [|fuel IHf]; intros g s x.
    + intros H. exists g, s. split; [apply m_star_stop | done].
    + pose (again := fun (g' : option str) (s' : str) =>
               if (length s' <? length s)%nat
               then (fix loop (fuel : nat) (g : option str) (s : str) {struct fuel} : option A :=
                       match fuel with
                       | O => k g s
                       | S fuel' =>
                           if greedy then
                             match run whole r1 g s (fun g' s' =>
                                     if (length s' <? length s)%nat then loop fuel' g' s' else None) with
                             | Some x => Some x
                             | None => k g s
                             end
                           else
                             match k g s with
                             | Some x => Some x
                             | None =>
                                 run whole r1 g s (fun g' s' =>
                                   if (length s' <? length s)%nat then loop fuel' g' s' else None)
                             end
                       end) fuel g' s'
               else None).
      assert (Hmore : forall y, run whole r1 g s again = Some y ->
                exists g' s', matches whole (Star greedy r1) g s g' s' /\ k g' s' = Some y).
      { intros y H. apply IH1 in H as (g1 & s1 & H1 & H). unfold again in H.
        destruct (length s1 <? length s)%nat; [|done].
        apply IHf in H as (g2 & s2 & H2 & H).
        exists g2, s2. split; [by eapply m_star_more | done]. }
      fold again. destruct greedy.
      * destruct (run whole r1 g s again) eqn:E.
        -- intros [= ->]. by apply Hmore.
        -- intros H. exists g, s. split; [apply m_star_stop | done].
      * destruct (k g s) eqn:E.
        -- intros [= ->]. exists g, s. split; [apply m_star_stop | done].
        -- apply Hmore.
  - intros H. apply IH1 in H as (g' & s' & H1 & H).
    eexists _, s'. split; [by eapply m_group | done].
  - destruct g as [t|]; [|done].
    destruct (strip_prefix nocase t s) as [s'|] eqn:E; [|done].
    intros H. exists (Some t), s'. split; [by constructor | done].
  - destruct (length s =? whole)%nat eqn:E; [|done].
    intros H. exists g, s. split; [constructor; by apply Nat.eqb_eq | done].
  - destruct (at_eol s) eqn:E; [|done].
    intros H. exists g, s. split; [by constructor | done].
Qed.

(** Every pattern of the fragment leaves a suffix of its input. *)
Lemma matches_suffix r g s g' s' :
  matches whole r g s g' s' -> s' `suffix_of` s.
Proof.
  induction 1; try done.
  - by apply suffix_cons_r.
  - by etrans.
  - by etrans.
  - clear -H. revert s s' H. induction t as [|x t IH]; intros [|c s] s'; simpl.
    + by intros [= ->].
    + by intros [= ->].
    + done.
    + destruct (if nocase then _ else _); [|done].
      intros H%IH. by apply suffix_cons_r.
Qed.
End Soundness.

Lemma match_at_sound whole r s rest :
  match_at whole r s = Some rest ->
  exists g, matches whole r None s g rest.
Proof.
  unfold match_at. intros H. apply run_sound in H as (g & s' & H & [= ->]). by exists g.
Qed.

Lemma match_at_suffix whole r s rest :
  match_at whole r s = Some rest -> exists m, s = m ++ rest.
Proof. intros [g H]%match_at_sound. by apply matches_suffix in H. Qed.

(** ** Scanning *)

Lemma scan_text whole r s : forall inside,
  pieces_text (scan whole r s inside) = drop inside s.
Proof.
  unfold pieces_text.
  induction s as [|c s IH]; intros inside; [by destruct inside|].
  destruct inside as [|n]; simpl; [|apply IH].
  destruct (match_at whole r (c :: s)) as [rest|]; simpl.
  - destruct (length rest) as [|k]; simpl.
    + by rewrite IH, take_drop.
    + destruct (length s - k)%nat eqn:E; simpl; [by rewrite IH|].
      by rewrite IH, take_drop.
  - by rewrite IH.
Qed.

(** The pieces of a scan, put together again, are the subject. *)
Lemma pieces_cover r s : pieces_text (pieces r s) = s.
Proof. apply scan_text. Qed.

Lemma scan_hits_nonempty whole r s : forall inside,
  Forall (fun p => piece_text p <> []) (scan whole r s inside).
Proof.
  induction s as [|c s IH]; intros inside; [by destruct inside; constructor|].
  destruct inside as [|n]; simpl; [|apply IH].
  destruct (match_at whole r (c :: s)) as [rest|]; simpl.
  - destruct (length rest) as [|k]; simpl; [by constructor|].
    destruct (length s - k)%nat; by constructor.
  - by constructor.
Qed.


Lemma hits_from_laid_out ps : forall pre from,
  (from <= length pre)%nat ->
  Forall (fun p => piece_text p <> []) ps ->
  laid_out (pre ++ pieces_text ps) from (hits_from (length pre) ps).
Proof.
  unfold pieces_text.
  induction ps as [|[c|m] ps IH]; intros pre from Hfrom Hne; simpl; [done| |].
  - apply Forall_cons in Hne as [_ Hne].
    specialize (IH (pre ++ [c]) from).
    rewrite length_app, Nat.add_1_r, <- app_assoc in IH. apply IH; [lia | done].
  - apply Forall_cons in Hne as [Hm Hne].
    split; [done|]. split; [done|]. split.
    + unfold occurs_at. by rewrite drop_app_length, take_app_length.
    + specialize (IH (pre ++ m) (length pre + length m)%nat).
      rewrite length_app, <- app_assoc in IH. apply IH; [lia | done].
Qed.

(** [finditer] yields the matches in the order they lie in the subject. *)
Lemma finditer_laid_out r s : laid_out s 0 (finditer r s).
Proof.
  pose proof (hits_from_laid_out (pieces r s) [] O (Nat.le_refl _) (scan_hits_nonempty _ r s O)) as H.
  simpl in H. by rewrite pieces_cover in H.
Qed.

(** Deleting the matches of a one-character set is a filter. *)
Lemma scan_set whole p s :
  scan whole (Set_ p) s 0 = map (fun c => if p c then Hit [c] else Skip c) s.
Proof.
  induction s as [|c s IH]; [done|].
  simpl. unfold match_at. simpl. destruct (p c).
  - replace (S (length s) - length s)%nat with 1%nat by lia. by rewrite IH, take_0.
  - by rewrite IH.
Qed.

Lemma delete_all_set p s :
  delete_all (Set_ p) s = filter (fun c => p c = false) s.
Proof.
  unfold delete_all, pieces. rewrite scan_set.
  induction s as [|c s IH]; [done|].
  rewrite filter_cons. cbn [map omap list_omap]. destruct (p c) eqn:Hp.
  - rewrite decide_False by done. apply IH.
  - rewrite decide_True by done. simpl. by rewrite <- IH.
Qed.

Lemma delete_non_digits p : delete_all (Set_ non_digit) p = digits_of p.
Proof.
  rewrite delete_all_set. unfold digits_of, non_digit.
  apply list_filter_iff. intros c. by destruct (Char.digit c).
Qed.

(** ** Lists: first occurrences, [dict.fromkeys], slices *)



Lemma first_index_map {A B} (f : A -> B) p l :
  first_index p (map f l) = first_index (fun x => p (f x)) l.
Proof. induction l as [|x l IH]; [done|]. simpl. by rewrite IH. Qed.

Lemma fromkeys_elem seen l x : x ∈ fromkeys seen l -> x ∈ l /\ x ∉ seen.
Proof.
  revert seen. induction l as [|y l IH]; intros seen; simpl; [by intros ?%elem_of_nil|].
  case_bool_decide as Hy.
  - intros [? ?]%IH. split; [by right | done].
  - intros [->|[? Hn]%IH]%elem_of_cons; [split; [by left | done]|].
    split; [by right|]. intros ?. apply Hn. by right.
Qed.

Lemma fromkeys_NoDup seen l : NoDup (fromkeys seen l).
Proof.
  revert seen. induction l as [|y l IH]; intros seen; simpl; [constructor|].
  case_bool_decide; [apply IH|]. constructor; [|apply IH].
  intros [_ Hn]%fromkeys_elem. apply Hn. by left.
Qed.



Lemma slice_to_lookup {A} n (l : list A) i x : slice_to n l !! i = Some x -> l !! i = Some x.
Proof. unfold slice_to. destruct (0 <=? n); by intros [? _]%lookup_take_Some. Qed.

Lemma slice_to_elem {A} n (l : list A) x : x ∈ slice_to n l -> x ∈ l.
Proof. intros [i Hi]%list_elem_of_lookup_1. by eapply list_elem_of_lookup_2, slice_to_lookup. Qed.

Lemma slice_to_NoDup {A} n (l : list A) : NoDup l -> NoDup (slice_to n l).
Proof.
  intros H. unfold slice_to.
  destruct (0 <=? n); eapply sublist_NoDup; eauto using sublist_take.
Qed.

Lemma slice_to_length {A} n (l : list A) : 0 <= n -> Z.of_nat (length (slice_to n l)) <= n.
Proof.
  intros Hn. unfold slice_to. rewrite (proj2 (Z.leb_le 0 n) Hn), length_take. lia.
Qed.

(** ** Phones *)

Lemma one_of_elem t c : one_of t c = true -> c ∈ py t.
Proof.
  unfold one_of. intros (x & Hx & ->%same_eq)%existsb_exists. by apply list_elem_of_In.
Qed.

Lemma valid_phones_filter raw :
  valid_phones raw = filter (fun d => phone_ok d = true) (map digits_of raw).
Proof.
  induction raw as [|p raw IH]; [done|].
  cbn [valid_phones map]. rewrite filter_cons, delete_non_digits, IH.
  fold (phone_ok (digits_of p)). by destruct (phone_ok (digits_of p)).
Qed.

Lemma phone_ok_indian_mobile p : phone_ok (digits_of p) = true -> indian_mobile (digits_of p).
Proof.
  unfold phone_ok. intros [Hlen Hhead]%andb_true_iff.
  split; [by apply Nat.eqb_eq|]. split.
  - unfold digits_of. by apply Forall_forall; intros c [? _]%list_elem_of_filter.
  - destruct (digits_of p) as [|c rest]; [done|].
    exists c, rest. split; [done | by apply one_of_elem].
Qed.

Lemma valid_phones_indian_mobile raw : Forall indian_mobile (valid_phones raw).
Proof.
  rewrite valid_phones_filter. apply Forall_forall.
  intros d [Hok [p [-> _]]%list_elem_of_fmap]%list_elem_of_filter.
  by apply phone_ok_indian_mobile.
Qed.


(** ** Emails *)

(** What the loop of [clean_emails] lets through. *)
Lemma valid_emails_elem raw e :
  e ∈ valid_emails raw ->
  exists c, c ∈ raw /\ e = lower c /\
    existsb (endswith e) asset_extensions = false /\
    contains e (py "@") = true /\
    match_ strict_email_re e = true.
Proof.
  induction raw as [|c raw IH]; [by intros ?%elem_of_nil|].
  cbn [valid_emails].
  assert (Hrest : e ∈ valid_emails raw ->
            exists c0, c0 ∈ c :: raw /\ e = lower c0 /\
              existsb (endswith e) asset_extensions = false /\
              contains e (py "@") = true /\ match_ strict_email_re e = true).
  { intros (c0 & ? & ?)%IH. exists c0. split; [by right | done]. }
  destruct (existsb (endswith (lower c)) asset_extensions) eqn:Hext; [done|].
  destruct (contains (lower c) (py "@")) eqn:Hat; simpl; [|done].
  destruct (match_ strict_email_re (lower c)) eqn:Hre; [|done].
  intros [->|?]%elem_of_cons; [|by apply Hrest].
  exists c. split; [by left | done].
Qed.

Lemma clean_emails_elem raw e : e ∈ clean_emails raw <-> e ∈ valid_emails raw.
Proof. unfold clean_emails, list_of_set. by rewrite elem_of_elements, elem_of_list_to_set. Qed.

Lemma clean_emails_NoDup raw : NoDup (clean_emails raw).
Proof. unfold clean_emails, list_of_set. apply NoDup_elements. Qed.

(** C7: for every markup, the extracted emails are lower-case, pairwise
    distinct, each contains an at sign, and none ends in one of the
    static-asset extensions .js .css .png .jpg .jpeg .gif .svg. *)
Theorem emails_well_formed (html : str) (max_phones : Z) :
  let emails := (extract_contact_info html max_phones).1 in
  NoDup emails /\
  Forall (fun e =>
            lower e = e /\
            Forall (fun c => Char.upper_az c = false) e /\
            "@"%char ∈ e /\
            Forall (fun ext => ~ ext `suffix_of` e) asset_extensions) emails.
Proof.
  intros emails. split; [apply clean_emails_NoDup|].
  apply Forall_forall. intros e He.
  apply clean_emails_elem, valid_emails_elem in He as (c & _ & -> & Hext & Hat & _).
  split; [apply lower_idempotent|]. split; [apply lower_no_upper|].
  split; [by apply contains_char|].
  apply Forall_forall. intros ext Hin Hsuf.
  apply endswith_suffix in Hsuf.
  apply not_true_iff_false in Hext. apply Hext, existsb_exists.
  exists ext. split; [by apply list_elem_of_In | done].
Qed.

(** ** The shape the strict pattern imposes *)

Section Inversion.
Variable whole : nat.

Lemma matches_cat_inv r1 r2 g s g2 s2 :
  matches whole (Cat r1 r2) g s g2 s2 ->
  exists g1 s1, matches whole r1 g s g1 s1 /\ matches whole r2 g1 s1 g2 s2.
Proof. inversion 1; subst; eauto. Qed.

Lemma matches_eps_inv g s g' s' : matches whole Eps g s g' s' -> s' = s.
Proof. by inversion 1. Qed.

Lemma matches_set_inv p g s g' s' :
  matches whole (Set_ p) g s g' s' -> exists c, s = c :: s' /\ p c = true.
Proof. inversion 1; subst; eauto. Qed.

Lemma matches_star_set_inv b p g s g' s' :
  matches whole (Star b (Set_ p)) g s g' s' ->
  exists m, s = m ++ s' /\ Forall (fun c => p c = true) m.
Proof.
  remember (Star b (Set_ p)) as r eqn:Hr. induction 1; try discriminate.
  - by exists [].
  - injection Hr as -> ->.
    apply matches_set_inv in H as (c & -> & Hc).
    destruct (IHmatches2 eq_refl) as (m & -> & Hm).
    exists (c :: m). split; [done | by constructor].
Qed.

Lemma matches_plus_set_inv p g s g' s' :
  matches whole (Plus (Set_ p)) g s g' s' ->
  exists m, s = m ++ s' /\ m <> [] /\ Forall (fun c => p c = true) m.
Proof.
  intros (g1 & s1 & (c & -> & Hc)%matches_set_inv & (m & -> & Hm)%matches_star_set_inv)%matches_cat_inv.
  exists (c :: m). split; [done|]. split; [done | by constructor].
Qed.

Lemma matches_char_inv x g s g' s' :
  matches whole (Lit false [x]) g s g' s' -> s = x :: s'.
Proof.
  intros (g1 & s1 & (c & -> & Hc%same_eq)%matches_set_inv & ->%matches_eps_inv)%matches_cat_inv.
  by subst.
Qed.

Lemma matches_eol_inv g s g' s' :
  matches whole Eol g s g' s' -> s' = s /\ (s = [] \/ s = ["010"%char]).
Proof.
  inversion 1 as [| | | | | | | | | |g0 s0 Heol]; subst. split; [done|].
  destruct s' as [|c [|? ?]]; [by left | | done].
  right. f_equal. symmetry. by apply same_eq.
Qed.
End Inversion.

(** The three patterns a scan is run with consume at least one character,
    which is what [scan] takes for granted. *)
Lemma scanned_patterns_consume whole r g s g' s' :
  r = script_style_re \/ r = email_re \/ r = phone_re ->
  matches whole r g s g' s' -> (length s' < length s)%nat.
Proof.
  intros [-> | [-> | ->]] H.
  - unfold script_style_re, Seq in H. cbn [foldr Lit py list_ascii_of_string] in H.
    apply matches_cat_inv in H as (g1 & s1 & H1 & H).
    apply matches_cat_inv in H1 as (g2 & s2 & (c & -> & _)%matches_set_inv & ->%matches_eps_inv).
    apply matches_suffix, suffix_length in H. simpl. lia.
  - unfold email_re, Seq in H. cbn [foldr] in H.
    apply matches_cat_inv in H as (g1 & s1 & (m & -> & Hm & _)%matches_plus_set_inv & H).
    apply matches_suffix, suffix_length in H. rewrite length_app.
    destruct m; [done | simpl; lia].
  - unfold phone_re, Seq in H. cbn [foldr] in H.
    apply matches_cat_inv in H as (g1 & s1 & H1%matches_suffix%suffix_length & H).
    apply matches_cat_inv in H as (g2 & s2 & (c & -> & _)%matches_set_inv & H).
    apply matches_suffix, suffix_length in H. simpl in H1. lia.
Qed.

(** An address the strict pattern accepts is a local part, an at sign, one
    label, a dot and two or more letters (and at most a final newline). *)
Lemma strict_email_shape e :
  match_ strict_email_re e = true ->
  exists l d t nl,
    e = l ++ "@"%char :: d ++ "."%char :: t ++ nl /\
    l <> [] /\ Forall (fun c => local_char c = true) l /\
    d <> [] /\ Forall (fun c => label_char c = true) d /\
    (2 <= length t)%nat /\ Forall (fun c => letter c = true) t /\
    (nl = [] \/ nl = ["010"%char]).
Proof.
  unfold match_. destruct (match_at _ _ _) as [rest|] eqn:E; [intros _|done].
  apply match_at_sound in E as [g H].
  unfold strict_email_re, Seq in H. cbn [foldr] in H.
  apply matches_cat_inv in H as (g1 & s1 & H1 & H). inversion H1; subst. clear H1.
  apply matches_cat_inv in H as (g2 & s2 & (l & El & Hl & Hlc)%matches_plus_set_inv & H).
  apply matches_cat_inv in H as (g3 & s3 & Eat%matches_char_inv & H).
  apply matches_cat_inv in H as (g4 & s4 & (d & Ed & Hd & Hdc)%matches_plus_set_inv & H).
  apply matches_cat_inv in H as (g5 & s5 & Edot%matches_char_inv & H).
  apply matches_cat_inv in H as (g6 & s6 & Ht & H).
  apply matches_cat_inv in H as (g7 & s7 & [E7 Hnl]%matches_eol_inv & E8%matches_eps_inv).
  unfold AtLeast in Ht. cbn [Times] in Ht.
  apply matches_cat_inv in Ht as (g8 & s8 & Ht2 & (t & Et & Htc)%matches_star_set_inv).
  apply matches_cat_inv in Ht2 as (g9 & s9 & (c1 & E1 & Hc1)%matches_set_inv & Ht2).
  apply matches_cat_inv in Ht2 as (g10 & s10 & (c2 & E2 & Hc2)%matches_set_inv & E3%matches_eps_inv).
  subst.
  exists l, d, (c1 :: c2 :: t), s6.
  split; [done|]. split; [done|]. split; [done|]. split; [done|]. split; [done|].
  split; [simpl; lia|]. split; [by repeat constructor | done].
Qed.

Lemma domain_of_app l s :
  Forall (fun c => local_char c = true) l -> domain_of (l ++ "@"%char :: s) = s.
Proof.
  induction 1 as [|c l Hc _ IH]; [done|].
  simpl. destruct (Char.same "@" c) eqn:E; [|done].
  apply same_eq in E as <-. done.
Qed.

Lemma dots_app s t : dots (s ++ t) = (dots s + dots t)%nat.
Proof. unfold dots. by rewrite filter_app, length_app. Qed.

Lemma dots_none (p : ascii -> bool) s :
  p "."%char = false -> Forall (fun c => p c = true) s -> dots s = O.
Proof.
  intros Hp. unfold dots. induction 1 as [|c s Hc _ IH]; [done|].
  rewrite filter_cons. destruct (decide (c = "."%char)) as [->|]; [congruence | done].
Qed.

(** An address the strict pattern accepts has one dot after its at sign. *)
Lemma strict_email_one_dot e :
  match_ strict_email_re e = true -> dots (domain_of e) = 1%nat.
Proof.
  intros (l & d & t & nl & -> & _ & Hl & _ & Hd & _ & Ht & Hnl)%strict_email_shape.
  rewrite domain_of_app by done.
  change (d ++ "."%char :: t ++ nl) with (d ++ ["."%char] ++ t ++ nl).
  rewrite !dots_app, (dots_none label_char d), (dots_none letter t) by done.
  by destruct Hnl as [-> | ->].
Qed.

Lemma lower_domain_dots c : dots (domain_of (lower c)) = dots (domain_of c).
Proof.
  assert (Hat : forall x, Char.same "@" (Char.lower_char x) = Char.same "@" x)
    by (intros [[] [] [] [] [] [] [] []]; reflexivity).
  assert (Hdot : forall x, Char.lower_char x = "."%char <-> x = "."%char)
    by (intros [[] [] [] [] [] [] [] []]; split; (reflexivity || discriminate)).
  assert (Hdots : forall s, dots (lower s) = dots s).
  { unfold dots, lower. induction s as [|x s IH]; [done|].
    cbn [map]. rewrite !filter_cons.
    destruct (decide (Char.lower_char x = "."%char)) as [Hx|Hx];
      destruct (decide (x = "."%char)) as [Hy|Hy]; simpl;
      try (by rewrite IH); exfalso.
    - by apply Hy, Hdot.
    - by apply Hx, Hdot. }
  induction c as [|x c IH]; [done|].
  cbn [lower map domain_of]. rewrite Hat. destruct (Char.same "@" x); [apply Hdots | apply IH].
Qed.

(** ** Page resolver *)

#[local] Arguments extract_contact_info : simpl never.
#[local] Arguments extract_category : simpl never.
#[local] Arguments py : simpl never.

Lemma scrape_contact_page_total W base_url max_phones :
  exists c_emails c_phones,
    scrape_contact_page W base_url max_phones = Ok (c_emails, c_phones).
Proof.
  unfold scrape_contact_page, fetch_html. run_outcome.
  destruct (urljoin W base_url _) as [contact_url|]; [|by eauto].
  destruct (requests_get W contact_url 8) as [resp|]; [|by eauto].
  destruct (resp_raise_for_status resp); [|by eauto].
  destruct (extract_contact_info _ _). by eauto.
Qed.

Lemma scrape_website_failed W url max_phones e :
  page_failure W url e -> scrape_website W url max_phones = Ok (failure_result url e).
Proof.
  unfold scrape_website, fetch_html, get_soup, failure_result.
  intros [Hget | resp Hget Hstatus | resp e1 Hget Hstatus Hlxml Hparser]; run_outcome.
  - by rewrite Hget.
  - by rewrite Hget, Hstatus.
  - by rewrite Hget, Hstatus, Hlxml, Hparser.
Qed.

Lemma scrape_website_loaded W url max_phones html soup :
  page_loaded W url html soup ->
  exists c_emails c_phones,
    scrape_contact_page W url max_phones = Ok (c_emails, c_phones) /\
    scrape_website W url max_phones =
      Ok {| Website := url;
            Emails := join (py ", ")
                        (if truthy (extract_contact_info html max_phones).1
                         then (extract_contact_info html max_phones).1 else c_emails);
            Phone_Numbers := join (py ", ")
                        (if truthy (extract_contact_info html max_phones).1
                         then (extract_contact_info html max_phones).2
                         else or_else (extract_contact_info html max_phones).2 c_phones);
            Category := extract_category soup |}.
Proof.
  intros [Hfetch Hsoup].
  destruct (scrape_contact_page_total W url max_phones) as (c_emails & c_phones & Hc).
  exists c_emails, c_phones. split; [done|].
  unfold scrape_website. rewrite Hfetch. run_outcome. rewrite Hsoup.
  destruct (extract_contact_info html max_phones) as [emails phones]. cbn.
  destruct emails as [|e emails]; cbn; [|done].
  by rewrite Hc.
Qed.

Lemma page_outcome W url :
  (exists e, page_failure W url e) \/ (exists html soup, page_loaded W url html soup).
Proof.
  unfold page_loaded, fetch_html, get_soup. run_outcome.
  destruct (requests_get W url 15) as [resp|e] eqn:Hget;
    [|left; exists e; by apply failure_get].
  destruct (resp_raise_for_status resp) as [[]|e] eqn:Hstatus;
    [|left; exists e; by eapply failure_status].
  destruct (BeautifulSoup W (resp_text resp) (py "lxml")) as [soup|e1] eqn:Hlxml.
  - right. exists (resp_text resp), soup. by rewrite Hlxml.
  - destruct (BeautifulSoup W (resp_text resp) (py "html.parser")) as [soup|e] eqn:Hparser.
    + right. exists (resp_text resp), soup. by rewrite Hlxml, Hparser.
    + left. exists e. by eapply failure_parse.
Qed.

(** C4 (as amended): for every URL and max_phones the page resolver returns
    a record and never raises; when the request raises (network error,
    timeout), when raise_for_status raises (a final status in 400..599) or
    when both parsers raise, the record has empty Emails and Phone Numbers
    and a Category that is a failure text embedding the error; in every
    other case, a final status outside 400..599 that is not 2xx included, it
    carries the extracted facts joined with commas. *)
Theorem scrape_website_never_raises (W : World) (url : str) (max_phones : Z) :
  exists r,
    scrape_website W url max_phones = Ok r /\
    Website r = url /\
    (forall e, page_failure W url e ->
       Emails r = [] /\ Phone_Numbers r = [] /\
       Category r = py "Failed to fetch: " ++ exn_text e) /\
    (forall html soup, page_loaded W url html soup ->
       exists emails phones c_emails c_phones,
         Emails r = join (py ", ") emails /\
         Phone_Numbers r = join (py ", ") phones /\
         Category r = extract_category soup /\
         scrape_contact_page W url max_phones = Ok (c_emails, c_phones) /\
         emails = or_else (extract_contact_info html max_phones).1 c_emails /\
         phones = (if truthy (extract_contact_info html max_phones).1
                   then (extract_contact_info html max_phones).2
                   else or_else (extract_contact_info html max_phones).2 c_phones)) /\
    ((exists e, page_failure W url e) \/
     (exists html soup, page_loaded W url html soup)) /\
    (forall status body http_error,
       requests_get W url 15 = Ok (requests_response status body http_error) ->
       (400 <= status < 600 -> page_failure W url http_error) /\
       (~ 400 <= status < 600 -> fetch_html W url 15 = Ok (py body))).
Proof.
  assert (Hr : exists r, scrape_website W url max_phones = Ok r /\ Website r = url).
  { destruct (page_outcome W url) as [[e He] | (html & soup & Hl)].
    - eexists. split; [by apply scrape_website_failed|done].
    - destruct (scrape_website_loaded W url max_phones html soup Hl) as (? & ? & _ & ->).
      by eexists. }
  destruct Hr as (r & Hr & Hurl). exists r.
  split; [done|]. split; [done|]. split; [|split; [|split; [apply page_outcome|]]].
  - intros e He. apply (scrape_website_failed _ _ max_phones) in He.
    rewrite Hr in He. by injection He as ->.
  - intros html soup Hl.
    destruct (scrape_website_loaded W url max_phones html soup Hl) as (ce & cp & Hc & Hs).
    rewrite Hr in Hs. injection Hs as ->. simpl.
    eexists _, _, ce, cp. split; [done|]. split; [done|]. split; [done|].
    split; [done|]. split; [|done]. done.
  - intros status body http_error Hget. split; intros Hs.
    + eapply failure_status; [exact Hget|]. unfold requests_response. cbn.
      destruct (400 <=? status) eqn:E1; destruct (status <? 600) eqn:E2; try done; lia.
    + unfold fetch_html. rewrite Hget. unfold requests_response. run_outcome.
      destruct (400 <=? status) eqn:E1; destruct (status <? 600) eqn:E2; try done.
      exfalso. apply Hs. lia.
Qed.

(** C5: once the primary page is loaded, a non-empty email list found on it
    reaches the record unchanged, together with the primary phone list (the
    contact page is not consulted then), and a non-empty primary phone list
    reaches the record unchanged whatever the contact page yields. *)
Theorem contact_fallback_keeps_primary (W : World) (url : str) (max_phones : Z)
    (html : str) (soup : Soup) :
  page_loaded W url html soup ->
  exists r,
    scrape_website W url max_phones = Ok r /\
    ((extract_contact_info html max_phones).1 <> [] ->
       Emails r = join (py ", ") (extract_contact_info html max_phones).1 /\
       Phone_Numbers r = join (py ", ") (extract_contact_info html max_phones).2) /\
    ((extract_contact_info html max_phones).2 <> [] ->
       Phone_Numbers r = join (py ", ") (extract_contact_info html max_phones).2).
Proof.
  intros Hl.
  destruct (scrape_website_loaded W url max_phones html soup Hl) as (ce & cp & _ & ->).
  eexists. split; [done|]. cbn.
  destruct (extract_contact_info html max_phones) as [emails phones]. cbn.
  split.
  - intros He. by destruct emails.
  - intros Hp. destruct emails; [|done]. by destruct phones.
Qed.

(** ** Website resolver *)

(** C8: the website resolver never raises; it returns the link of the first
    search result when that result carries one ([href], or else [link]), and
    the not-found marker [None] when the search raises or yields nothing. *)
Theorem get_website_from_search_total (W : World) (company_name : str) :
  let q := company_name ++ py " official website" in
  exists found,
    get_website_from_search W company_name = Ok found /\
    (forall e, ddgs_text W q = Raise e -> found = None) /\
    (ddgs_text W q = Ok [] -> found = None) /\
    (forall r rest h,
       ddgs_text W q = Ok (r :: rest) -> h <> [] ->
       r !! py "href" = Some h \/
       ((r !! py "href" = None \/ r !! py "href" = Some []) /\ r !! py "link" = Some h) ->
       found = Some h).
Proof.
  intros q. unfold get_website_from_search. fold q. run_outcome.
  destruct (ddgs_text W q) as [results|e].
  - exists (first_href results). split; [done|]. split; [done|]. split.
    + by intros [= ->].
    + intros r rest h [= ->] Hh Hlink. cbn [first_href].
      destruct h as [|c h]; [done|].
      destruct Hlink as [-> | [[-> | ->] ->]]; done.
  - exists None. by repeat split.
Qed.

(** ** URL input *)

Lemma has_scheme_startswith u :
  existsb (startswith u) [py "http://"; py "https://"] = true <-> has_scheme u.
Proof.
  cbn [existsb]. rewrite orb_false_r, orb_true_iff, !startswith_prefix.
  unfold has_scheme. split.
  - intros [[k ->] | [k ->]]; exists k; [by left | by right].
  - intros [k [-> | ->]]; [left | right]; by exists k.
Qed.

(** C9 (as amended): normalisation returns an input unchanged exactly when
    it starts with the lower-case text http:// or https://, and puts
    https:// before every other input, one that carries another scheme or
    the same scheme in other letter case included; so every URL it hands on
    starts with http:// or https://. *)
Theorem normalize_scheme (u : str) (urls : list str) :
  (has_scheme u -> normalize u = u) /\
  (~ has_scheme u -> normalize u = py "https://" ++ u) /\
  has_scheme (normalize u) /\
  Forall has_scheme (map normalize urls).
Proof.
  assert (Hn : forall v, has_scheme (normalize v)).
  { intros v. unfold normalize.
    destruct (existsb _ _) eqn:E; [by apply has_scheme_startswith|].
    exists v. by right. }
  unfold normalize. split; [|split; [|split]].
  - intros H. apply has_scheme_startswith in H. by rewrite H.
  - intros H. destruct (existsb _ _) eqn:E; [|done].
    by apply has_scheme_startswith in E.
  - apply Hn.
  - apply Forall_map, Forall_true, Hn.
Qed.

(** ** Classifier *)

Lemma first_category_in_table text table category :
  first_category text table = Some category -> category ∈ table.*1.
Proof.
  induction table as [|[c kws] table IH]; [done|]. cbn [first_category].
  destruct (existsb (contains text) kws).
  - intros [= ->]. by left.
  - intros H. right. by apply IH.
Qed.

(** X11: whatever the document, the label returned is one of the eleven keys
    of the table of the source. *)
Lemma extract_category_in_code_taxonomy soup : extract_category soup ∈ code_taxonomy.
Proof.
  unfold extract_category.
  destruct (first_category _ _) as [c|] eqn:E.
  - by apply first_category_in_table in E.
  - apply (bool_decide_unpack _). by vm_compute.
Qed.

(** The first entry with a keyword in the text wins. *)
Lemma first_category_first text table category :
  first_category text table = Some category <->
  exists before kws after,
    table = before ++ (category, kws) :: after /\
    existsb (contains text) kws = true /\
    Forall (fun entry => existsb (contains text) entry.2 = false) before.
Proof.
  induction table as [|[c kws] table IH]; cbn [first_category].
  - split; [done|]. intros (before & ? & ? & H & _). by destruct before.
  - destruct (existsb (contains text) kws) eqn:E.
    + split.
      * intros [= ->]. exists [], kws, table. by repeat split.
      * intros ([|[c0 k0] before] & kws' & after & H & Hk & Hb).
        -- by injection H as -> _ _.
        -- injection H as -> -> _. apply Forall_cons in Hb as [Hb _]. simpl in Hb. congruence.
    + rewrite IH. split.
      * intros (before & kws' & after & -> & Hk & Hb).
        exists ((c, kws) :: before), kws', after. split; [done|]. split; [done|].
        by constructor.
      * intros ([|[c0 k0] before] & kws' & after & H & Hk & Hb).
        -- injection H as -> -> _. congruence.
        -- injection H as _ _ ->. apply Forall_cons in Hb as [_ Hb].
           by exists before, kws', after.
Qed.

(** Without a keyword in the text the label is Other. *)
Lemma extract_category_default soup :
  first_category (category_text soup) CATEGORY_KEYWORDS = None ->
  extract_category soup = py "Other".
Proof. unfold extract_category. by intros ->. Qed.

(** X14: when the document has no description tag, or one with a non-empty
    content, the text classified is the lower-cased description content, else
    the og:description content, else the title, else the empty string. *)
Lemma category_text_agrees soup :
  soup_find (py "meta") (py "name") (py "description") soup = None \/
  usable_content (soup_find (py "meta") (py "name") (py "description") soup) <> None ->
  category_text soup = spec_category_text soup.
Proof.
  unfold category_text, spec_category_text, usable_content.
  intros [-> | H].
  - destruct (soup_find _ (py "property") _ soup) as [t|].
    + destruct (tag_get t _) as [[|c s]|]; cbn [truthy]; try done;
        destruct (soup_title soup) as [t'|]; try done;
        by destruct (tag_string t') as [[|? ?]|].
    + destruct (soup_title soup) as [t'|]; [|done].
      by destruct (tag_string t') as [[|? ?]|].
  - destruct (soup_find _ (py "name") _ soup) as [t|]; [|done].
    by destruct (tag_get t _) as [[|c s]|].
Qed.

(** The two taxonomies differ in the spelling of one label only. *)
Lemma taxonomies_differ_in_one_label :
  map (fun c => if bool_decide (c = py "Fragnances") then py "Fragrances" else c)
      code_taxonomy = spec_taxonomy.
Proof. by vm_compute. Qed.

(** C2 (the code departs from it): for a page described as selling perfume
    the classifier answers with the label of the source's table, Fragnances,
    which is not a label of the taxonomy the specification fixes, where the
    fourth label is Fragrances. *)
Theorem perfume_label_outside_taxonomy :
  extract_category perfume_soup = py "Fragnances" /\
  (extract_category perfume_soup ∉ spec_taxonomy) /\
  (py "Fragrances" ∉ code_taxonomy).
Proof.
  assert (H : extract_category perfume_soup = py "Fragnances").
  { by vm_compute. }
  rewrite H. split; [done|].
  split; apply (bool_decide_unpack _); by vm_compute.
Qed.

(** C3 (the code departs from it): with an empty description tag, an
    og:description about shampoo and a title, the classifier reads the
    title and answers Other, where the stated priority reads the
    og:description and leads to Hair Care. *)
Theorem empty_description_skips_og_description :
  category_text empty_description_soup = py "shop" /\
  spec_category_text empty_description_soup = py "buy the best shampoo and conditioner" /\
  extract_category empty_description_soup = py "Other" /\
  first_category (spec_category_text empty_description_soup) CATEGORY_KEYWORDS
    = Some (py "Hair Care").
Proof. by vm_compute. Qed.

(** ** Scenarios *)

(** C1 (the code departs from it): on the markup of scenario A the email set
    is as stated, but the phone list is empty: the only candidate is the
    number with its country code, whose twelve digits the cleanup rejects. *)
Theorem scenario_A_phone_dropped :
  extract_contact_info scenario_A 3 = ([py "info@shop.com"], []) /\
  findall phone_re scenario_A = [py "+91 98765 43210"] /\
  digits_of (py "+91 98765 43210") = py "919876543210" /\
  (extract_contact_info scenario_A 3).2 <> [py "9876543210"].
Proof.
  split; [by vm_compute|]. split; [by vm_compute|]. split; [by vm_compute|].
  by vm_compute.
Qed.

(** C10: an email that survives cleanup has exactly one dot after its at
    sign, so a candidate whose domain has two dots or more (three labels or
    more, as user@mail.example.com) is discarded, whatever the other
    candidates are. *)
Theorem multi_label_domains_discarded (html : str) (max_phones : Z) (raw : list str) :
  Forall (fun e => dots (domain_of e) = 1%nat) (extract_contact_info html max_phones).1 /\
  Forall (fun e => dots (domain_of e) = 1%nat) (clean_emails raw) /\
  (forall c, (2 <= dots (domain_of c))%nat -> lower c ∉ clean_emails raw) /\
  findall email_re (py "user@mail.example.com") = [py "user@mail.example.com"] /\
  clean_emails [py "user@mail.example.com"] = [].
Proof.
  assert (Hone : forall l, Forall (fun e => dots (domain_of e) = 1%nat) (clean_emails l)).
  { intros l. apply Forall_forall. intros e He.
    apply clean_emails_elem, valid_emails_elem in He as (c & _ & _ & _ & _ & Hre).
    by apply strict_email_one_dot. }
  split; [apply Hone|]. split; [apply Hone|]. split; [|split; by vm_compute].
  intros c Hc Hin.
  pose proof (proj1 (Forall_forall _ _) (Hone raw) _ Hin) as H. simpl in H.
  rewrite lower_domain_dots in H. lia.
Qed.

(** The three-label address among two candidates: it does not survive. *)
Lemma multi_label_domains_discarded_witness :
  (2 <= dots (domain_of (py "user@mail.example.com")))%nat /\
  lower (py "user@mail.example.com") ∉ clean_emails mixed_candidates.
Proof.
  assert (H : (2 <= dots (domain_of (py "user@mail.example.com")))%nat).
  { vm_compute. lia. }
  split; [exact H|].
  exact (proj1 (proj2 (proj2 (multi_label_domains_discarded [] 3 mixed_candidates))) _ H).
Defined.



(** The sample site: the home page is loaded, its phone list is kept. *)
Lemma contact_fallback_keeps_primary_witness :
  page_loaded sample_world (py "https://shop.example")
    (py "<title>Shop</title> Call 98765 43210") [title_tag "Shop"] /\
  exists r,
    scrape_website sample_world (py "https://shop.example") 3 = Ok r /\
    ((extract_contact_info (py "<title>Shop</title> Call 98765 43210") 3).1 <> [] ->
       Emails r = join (py ", ") (extract_contact_info (py "<title>Shop</title> Call 98765 43210") 3).1 /\
       Phone_Numbers r = join (py ", ") (extract_contact_info (py "<title>Shop</title> Call 98765 43210") 3).2) /\
    ((extract_contact_info (py "<title>Shop</title> Call 98765 43210") 3).2 <> [] ->
       Phone_Numbers r = join (py ", ") (extract_contact_info (py "<title>Shop</title> Call 98765 43210") 3).2).
Proof.
  assert (H : page_loaded sample_world (py "https://shop.example")
                (py "<title>Shop</title> Call 98765 43210") [title_tag "Shop"]).
  { split; reflexivity. }
  split; [exact H|].
  exact (contact_fallback_keeps_primary sample_world _ 3 _ _ H).
Defined.

(** An unreachable site: the record carries the error text. *)
Lemma scrape_website_never_raises_witness :
  page_failure sample_world (py "https://down.example")
    (Exception (py "ConnectionError") (py "unreachable")) /\
  exists r,
    scrape_website sample_world (py "https://down.example") 3 = Ok r /\
    Category r = py "Failed to fetch: unreachable".
Proof.
  assert (H : page_failure sample_world (py "https://down.example")
                (Exception (py "ConnectionError") (py "unreachable"))).
  { apply failure_get. reflexivity. }
  split; [exact H|].
  destruct (scrape_website_never_raises sample_world (py "https://down.example") 3)
    as (r & Hr & _ & Hfail & _).
  exists r. split; [exact Hr|]. exact (proj2 (proj2 (Hfail _ H))).
Defined.

(** The sample search: the first result carries an [href]. *)
Lemma get_website_from_search_total_witness :
  exists found,
    get_website_from_search sample_world (py "Shop") = Ok found /\
    found = Some (py "https://shop.example").
Proof.
  destruct (get_website_from_search_total sample_world (py "Shop"))
    as (found & Hfound & _ & _ & Hfirst).
  exists found. split; [exact Hfound|].
  eapply Hfirst; [reflexivity | discriminate | left; reflexivity].
Defined.

(** A bare host name gets the scheme. *)
Lemma normalize_scheme_witness :
  ~ has_scheme (py "example.com") /\
  normalize (py "example.com") = py "https://" ++ py "example.com".
Proof.
  assert (H : ~ has_scheme (py "example.com")).
  { intros [rest [E | E]]; discriminate E. }
  split; [exact H|].
  exact (proj1 (proj2 (normalize_scheme (py "example.com") [])) H).
Defined.

(** C4 as stated fails: a final answer with status 999, which is not 2xx, is
    no failure for [raise_for_status]; the record then carries the email of
    the page and the category of its title instead of empty fields and a
    failure text. *)
Lemma non_2xx_status_counterexample :
  ~ (200 <= 999 < 300) /\
  requests_get denied_world (py "https://shop.example") 15
    = Ok (requests_response 999 "Request denied. Write to Info@Shop.com"
            (Exception (py "HTTPError") (py "999 Error"))) /\
  scrape_website denied_world (py "https://shop.example") 3
    = Ok {| Website := py "https://shop.example";
            Emails := py "info@shop.com";
            Phone_Numbers := [];
            Category := py "Other" |}.
Proof.
  split; [lia|]. split; [reflexivity | by vm_compute].
Qed.

(** C9 as stated fails: an input that carries the scheme ftp, and one that
    carries https in other letter case, have a scheme present and still get
    https:// put before them. *)
Lemma scheme_present_counterexample :
  (carries_scheme (py "ftp://x.org") = true /\
   normalize (py "ftp://x.org") = py "https://ftp://x.org") /\
  (carries_scheme (py "Https://example.com") = true /\
   normalize (py "Https://example.com") = py "https://Https://example.com").
Proof. by vm_compute. Qed.

(** * Further properties of the code *)

(** ** Scanning: what [findall] and [re.sub] can return *)

(** A run of characters of [s]: [s] is [a ++ m ++ b]. *)
Lemma pieces_hit_infix ps m :
  Hit m ∈ ps -> exists a b, pieces_text ps = a ++ m ++ b.
Proof.
  unfold pieces_text. induction ps as [|p ps IH]; [by intros ?%elem_of_nil|].
  intros [<- | Hin]%elem_of_cons.
  - exists [], (mjoin (map piece_text ps)). done.
  - destruct (IH Hin) as (a & b & E). exists (piece_text p ++ a), b.
    simpl. rewrite E. by rewrite <- app_assoc.
Qed.

Lemma findall_elem r s m : m ∈ findall r s <-> Hit m ∈ pieces r s.
Proof.
  unfold findall. rewrite list_elem_of_omap. split.
  - intros ([c|m'] & Hin & E); [done|]. by injection E as ->.
  - intros H. by exists (Hit m).
Qed.

(** A match of [findall] is a run of characters of the subject. *)
Lemma findall_infix r s m : m ∈ findall r s -> exists a b, s = a ++ m ++ b.
Proof.
  intros H%findall_elem%pieces_hit_infix. by rewrite pieces_cover in H.
Qed.

Lemma scan_hits_match whole r s : forall inside,
  Forall (fun p => match p with
                   | Hit m => exists rest g, matches whole r None (m ++ rest) g rest
                   | Skip _ => True
                   end) (scan whole r s inside).
Proof.
  induction s as [|c s IH]; intros inside; [by destruct inside; constructor|].
  destruct inside as [|n]; simpl; [|apply IH].
  destruct (match_at whole r (c :: s)) as [rest|] eqn:E; [|by constructor].
  pose proof (match_at_suffix _ _ _ _ E) as [m Hm].
  apply match_at_sound in E as [g Hg].
  assert (Hlen : (length (c :: s) - length rest)%nat = length m).
  { rewrite Hm, length_app. lia. }
  simpl in Hlen. rewrite Hlen.
  destruct m as [|c0 m]; simpl; [by constructor|].
  constructor; [|apply IH].
  exists rest, g. simpl in Hm. injection Hm as -> ->.
  rewrite take_app_length. exact Hg.
Qed.

(** A match of [findall] is matched by the pattern. *)
Lemma findall_matches r s m :
  m ∈ findall r s -> exists rest g, matches (length s) r None (m ++ rest) g rest.
Proof.
  intros H%findall_elem.
  exact (proj1 (Forall_forall _ _) (scan_hits_match (length s) r s O) _ H).
Qed.

Lemma pieces_deleted_sublist ps :
  mjoin (omap (fun p => match p with Skip c => Some [c] | Hit _ => None end) ps)
    `sublist_of` pieces_text ps.
Proof.
  unfold pieces_text. induction ps as [|[c|m] ps IH]; simpl; [done| |].
  - by apply sublist_skip.
  - by apply sublist_inserts_l.
Qed.

(** [re.sub(r, '', s)] only deletes. *)
Lemma delete_all_sublist r s : delete_all r s `sublist_of` s.
Proof.
  pose proof (pieces_deleted_sublist (pieces r s)) as H.
  by rewrite pieces_cover in H.
Qed.

(** Where no character can open a match, a scan finds none. *)
Lemma scan_no_hits whole r (opens : ascii -> bool) :
  (forall c s rest, match_at whole r (c :: s) = Some rest -> opens c = true) ->
  forall s, Forall (fun c => opens c = false) s -> scan whole r s O = map Skip s.
Proof.
  intros Hopen. induction 1 as [|c s Hc _ IH]; [done|].
  simpl. destruct (match_at whole r (c :: s)) as [rest|] eqn:E.
  - apply Hopen in E. congruence.
  - by rewrite IH.
Qed.

Lemma script_style_opens whole c s rest :
  match_at whole script_style_re (c :: s) = Some rest -> c = "<"%char.
Proof.
  intros [g H]%match_at_sound.
  unfold script_style_re, Seq in H. cbn [foldr Lit py list_ascii_of_string] in H.
  apply matches_cat_inv in H as (g1 & s1 & H1 & _).
  apply matches_cat_inv in H1 as (g2 & s2 & (c' & E & Hc)%matches_set_inv & _).
  injection E as <- _. revert Hc. clear.
  destruct c as [[] [] [] [] [] [] [] []]; (reflexivity || discriminate).
Qed.

(** X1: markup without the character < is left as it is by the removal of
    script and style blocks. *)
Theorem strip_keeps_markup_without_tags (html : str) :
  "<"%char ∉ html -> delete_all script_style_re html = html.
Proof.
  intros Hlt. unfold delete_all, pieces.
  rewrite (scan_no_hits _ _ (fun c => bool_decide (c = "<"%char))).
  - clear. induction html as [|c html IH]; [done|]. simpl. f_equal. exact IH.
  - intros c s rest ->%script_style_opens. by apply bool_decide_eq_true_2.
  - apply Forall_forall. intros c Hc. apply bool_decide_eq_false_2.
    by intros ->.
Qed.

(** A page of plain text. *)
Lemma strip_keeps_markup_without_tags_witness :
  ("<"%char ∉ scenario_A) /\ delete_all script_style_re scenario_A = scenario_A.
Proof.
  assert (H : "<"%char ∉ scenario_A).
  { apply (bool_decide_unpack _). by vm_compute. }
  split; [exact H|]. exact (strip_keeps_markup_without_tags scenario_A H).
Defined.

(** X2: whatever the markup, the text the patterns are run on is the markup
    with characters deleted and none added or reordered, and the runs the
    candidate patterns match lie in it one after the other. *)
Theorem stripped_markup_is_sublist (html : str) :
  let clean_html := delete_all script_style_re html in
  clean_html `sublist_of` html /\
  (length clean_html <= length html)%nat /\
  laid_out clean_html 0 (finditer email_re clean_html) /\
  laid_out clean_html 0 (finditer phone_re clean_html).
Proof.
  intros clean_html. split; [apply delete_all_sublist|].
  split; [apply sublist_length, delete_all_sublist|].
  split; apply finditer_laid_out.
Qed.

(** ** The shape of the candidates *)

Section CandidateShapes.
Variable whole : nat.

Lemma matches_alt_inv r1 r2 g s g' s' :
  matches whole (Alt r1 r2) g s g' s' ->
  matches whole r1 g s g' s' \/ matches whole r2 g s g' s'.
Proof. inversion 1; subst; eauto. Qed.

Lemma matches_lit_inv t : forall g s g' s',
  matches whole (Lit false t) g s g' s' -> s = t ++ s'.
Proof.
  induction t as [|x t IH]; intros g s g' s'; cbn [Lit].
  - by intros ->%matches_eps_inv.
  - intros (g1 & s1 & (c & -> & ->%same_eq)%matches_set_inv & ->%IH)%matches_cat_inv.
    done.
Qed.

Lemma gap_not_digit m :
  Forall (fun c => gap_char c = true) m -> digits_of m = [].
Proof.
  unfold digits_of. induction 1 as [|c m Hc _ IH]; [done|].
  rewrite filter_cons, IH. destruct (decide (Char.digit c = true)) as [Hd|]; [|done].
  exfalso. revert Hc Hd. clear.
  destruct c as [[] [] [] [] [] [] [] []]; (discriminate || (intros _; discriminate)).
Qed.

Lemma digits_of_app a b : digits_of (a ++ b) = digits_of a ++ digits_of b.
Proof. unfold digits_of. apply filter_app. Qed.

(** [(?:[\s-]*\d){n}]: [n] digits, each after a gap. *)
Lemma matches_digit_groups n : forall g s g' s',
  matches whole (Times n (Seq [Star true (Set_ gap_char); Set_ Char.digit])) g s g' s' ->
  exists body, s = body ++ s' /\ length (digits_of body) = n.
Proof.
  induction n as [|n IH]; intros g s g' s'; cbn [Times].
  - intros ->%matches_eps_inv. by exists [].
  - intros (g1 & s1 & Hy & (body & E1 & Hb)%IH)%matches_cat_inv.
    unfold Seq in Hy. cbn [foldr] in Hy.
    apply matches_cat_inv in Hy as (g2 & s2 & (gaps & E2 & Hg)%matches_star_set_inv & Hy).
    apply matches_cat_inv in Hy as (g3 & s3 & (d & E3 & Hd)%matches_set_inv & E4%matches_eps_inv).
    subst. exists (gaps ++ d :: body). split; [by rewrite <- app_assoc|].
    rewrite digits_of_app, (gap_not_digit gaps Hg). unfold digits_of.
    rewrite filter_cons, decide_True by done. simpl. by f_equal.
Qed.
End CandidateShapes.

(** A candidate of the email pattern: local part, at sign, label, dot, tail. *)
Lemma email_candidate_shape s m :
  m ∈ findall email_re s ->
  exists l d t,
    m = l ++ "@"%char :: d ++ "."%char :: t /\
    l <> [] /\ Forall (fun c => local_char c = true) l /\
    d <> [] /\ Forall (fun c => label_char c = true) d /\
    t <> [] /\ Forall (fun c => tail_char c = true) t.
Proof.
  intros (rest & g & H)%findall_matches.
  unfold email_re, Seq in H. cbn [foldr] in H.
  apply matches_cat_inv in H as (g2 & s2 & (l & El & Hl & Hlc)%matches_plus_set_inv & H).
  apply matches_cat_inv in H as (g3 & s3 & Eat%(matches_lit_inv _ [_]) & H).
  apply matches_cat_inv in H as (g4 & s4 & (d & Ed & Hd & Hdc)%matches_plus_set_inv & H).
  apply matches_cat_inv in H as (g5 & s5 & Edot%(matches_lit_inv _ [_]) & H).
  apply matches_cat_inv in H as (g6 & s6 & (t & Et & Ht & Htc)%matches_plus_set_inv & E%matches_eps_inv).
  rewrite Eat, Ed, Edot, Et, <- E in El. exists l, d, t.
  split; [|done].
  apply (app_inv_tail rest). rewrite El. simpl.
  rewrite <- !app_assoc. simpl. by rewrite <- !app_assoc.
Qed.

(** A candidate of the phone pattern: an optional country code, a digit in
    6..9 and nine more digits, with gaps between them. *)
Lemma phone_candidate_shape s m :
  m ∈ findall phone_re s ->
  exists pre c body,
    m = pre ++ c :: body /\
    (pre = [] \/ exists gaps, pre = py "+91" ++ gaps /\ Forall (fun x => gap_char x = true) gaps) /\
    one_of "6789" c = true /\
    length (digits_of body) = 9%nat.
Proof.
  intros (rest & g & H)%findall_matches.
  unfold phone_re in H. unfold Seq at 1 in H. cbn [foldr] in H.
  apply matches_cat_inv in H as (g1 & s1 & Hpre & H).
  apply matches_cat_inv in H as (g2 & s2 & (c & Ec & Hc)%matches_set_inv & H).
  apply matches_cat_inv in H as (g3 & s3 & (body & Eb & Hb)%matches_digit_groups & E%matches_eps_inv).
  rewrite Eb, <- E in Ec.
  assert (Hp : exists pre, m ++ rest = pre ++ c :: body ++ rest /\
             (pre = [] \/ exists gaps, pre = py "+91" ++ gaps /\
                Forall (fun x => gap_char x = true) gaps)).
  { apply matches_alt_inv in Hpre as [Hx | Ee%matches_eps_inv].
    - unfold Seq in Hx. cbn [foldr] in Hx.
      apply matches_cat_inv in Hx as (g4 & s4 & E1%matches_lit_inv & Hx).
      apply matches_cat_inv in Hx as (g5 & s5 & (gaps & E2 & Hg)%matches_star_set_inv & E3%matches_eps_inv).
      exists (py "+91" ++ gaps). split; [|right; eauto].
      rewrite E1, E2, <- E3, Ec. by rewrite <- app_assoc.
    - exists []. split; [by rewrite <- Ee, Ec | by left]. }
  destruct Hp as (pre & Em & Hpre').
  exists pre, c, body. split; [|done].
  apply (app_inv_tail rest). rewrite Em. by rewrite <- app_assoc.
Qed.

Lemma one_of_6789_digit c : one_of "6789" c = true -> Char.digit c = true.
Proof.
  destruct c as [[] [] [] [] [] [] [] []]; vm_compute; intros H;
    (reflexivity || discriminate H).
Qed.

(** The digits of a candidate: ten without the country code, twelve with it. *)
Lemma phone_candidate_digits s m :
  m ∈ findall phone_re s ->
  (startswith m (py "+91") = false /\ phone_ok (digits_of m) = true) \/
  (startswith m (py "+91") = true /\ length (digits_of m) = 12%nat).
Proof.
  intros (pre & c & body & -> & Hpre & Hc & Hb)%phone_candidate_shape.
  pose proof (one_of_6789_digit c Hc) as Hd.
  assert (Hcb : digits_of (c :: body) = c :: digits_of body).
  { unfold digits_of. by rewrite filter_cons, decide_True. }
  destruct Hpre as [-> | (gaps & -> & Hg)].
  - left. simpl app. split.
    + apply not_true_iff_false. intros [k Hk]%startswith_prefix.
      injection Hk as -> _. revert Hc. by vm_compute.
    + rewrite Hcb. unfold phone_ok. simpl length. rewrite Hb. simpl. exact Hc.
  - right. split.
    + apply startswith_prefix. exists (gaps ++ c :: body). by rewrite <- app_assoc.
    + rewrite !digits_of_app, Hcb, (gap_not_digit gaps Hg).
      rewrite !length_app. cbn [length]. rewrite Hb. reflexivity.
Qed.

(** ** Extraction: where the facts come from *)



Lemma clean_phones_elem raw max_count p :
  p ∈ clean_phones raw max_count ->
  exists c, c ∈ raw /\ p = digits_of c /\ phone_ok p = true.
Proof.
  unfold clean_phones. intros [Hp _]%slice_to_elem%fromkeys_elem.
  rewrite valid_phones_filter in Hp.
  apply list_elem_of_filter in Hp as [Hok (c & -> & Hc)%list_elem_of_fmap].
  by exists c.
Qed.

(** X3: every extracted email is the lower-case form of a run of characters
    of the markup (script and style blocks removed), and every extracted
    phone is the digits of such a run: the extractor invents nothing. *)
Theorem extraction_invents_nothing (html : str) (max_phones : Z) :
  let clean_html := delete_all script_style_re html in
  Forall (fun e => exists c a b, clean_html = a ++ c ++ b /\ e = lower c)
         (extract_contact_info html max_phones).1 /\
  Forall (fun p => exists c a b, clean_html = a ++ c ++ b /\ p = digits_of c)
         (extract_contact_info html max_phones).2.
Proof.
  intros clean_html. split; apply Forall_forall.
  - intros e He.
    apply clean_emails_elem, valid_emails_elem in He as (c & Hc & -> & _).
    apply findall_infix in Hc as (a & b & E). by exists c, a, b.
  - intros p (c & Hc & -> & _)%clean_phones_elem.
    apply findall_infix in Hc as (a & b & E). by exists c, a, b.
Qed.

(** X4: markup without an at sign yields no email. *)
Theorem no_at_sign_no_email (html : str) (max_phones : Z) :
  "@"%char ∉ html -> (extract_contact_info html max_phones).1 = [].
Proof.
  intros Hat.
  destruct (extract_contact_info html max_phones).1 as [|e emails] eqn:E; [done|].
  exfalso. apply Hat.
  assert (He : e ∈ (extract_contact_info html max_phones).1) by (rewrite E; by left).
  apply clean_emails_elem, valid_emails_elem in He as (c & Hc & _).
  pose proof (email_candidate_shape _ _ Hc) as (l & d & t & -> & _).
  apply findall_infix in Hc as (a & b & Hab).
  eapply elem_of_sublist; [|apply delete_all_sublist].
  rewrite Hab. rewrite !elem_of_app. right. left. right. by left.
Qed.

(** A page with a phone number only. *)
Lemma no_at_sign_no_email_witness :
  ("@"%char ∉ py "Call 98765 43210") /\
  (extract_contact_info (py "Call 98765 43210") 3).1 = [].
Proof.
  assert (H : "@"%char ∉ py "Call 98765 43210").
  { apply (bool_decide_unpack _). by vm_compute. }
  split; [exact H|]. exact (no_at_sign_no_email _ 3 H).
Defined.



(** X6: a candidate of the phone pattern passes the cleanup exactly when it
    was matched without the country code: written with +91 it has twelve
    digits and is dropped, written without it its digits are kept as a
    valid phone. *)
Theorem phone_candidates_with_country_code_dropped (s : str) :
  let candidates := findall phone_re s in
  Forall (fun m =>
            if startswith m (py "+91")
            then length (digits_of m) = 12%nat /\ digits_of m ∉ valid_phones candidates
            else digits_of m ∈ valid_phones candidates) candidates.
Proof.
  intros candidates. apply Forall_forall. intros m Hm.
  destruct (phone_candidate_digits s m Hm) as [[-> Hok] | [-> Hlen]].
  - rewrite valid_phones_filter. apply list_elem_of_filter. split; [done|].
    apply list_elem_of_fmap. by exists m.
  - split; [done|]. intros Hin.
    pose proof (proj1 (Forall_forall _ _) (valid_phones_indian_mobile candidates) _ Hin)
      as [Hten _]. lia.
Qed.

(** ** Cleanup: what passes, and doing it twice *)

Lemma asset_extension_free e :
  existsb (endswith e) asset_extensions = false <->
  Forall (fun ext => ~ ext `suffix_of` e) asset_extensions.
Proof.
  rewrite <- not_true_iff_false, existsb_exists, Forall_forall. split.
  - intros Hn ext Hin Hsuf. apply Hn. exists ext.
    split; [by apply list_elem_of_In | by apply endswith_suffix].
  - intros Hall (ext & Hin%list_elem_of_In & Hsuf%endswith_suffix). by apply (Hall ext).
Qed.

Lemma strict_email_has_at e : match_ strict_email_re e = true -> contains e (py "@") = true.
Proof.
  intros (l & d & t & nl & -> & _)%strict_email_shape.
  apply contains_char. rewrite elem_of_app. right. by left.
Qed.

Lemma valid_emails_intro raw c :
  c ∈ raw ->
  existsb (endswith (lower c)) asset_extensions = false ->
  match_ strict_email_re (lower c) = true ->
  lower c ∈ valid_emails raw.
Proof.
  intros Hin Hext Hre. pose proof (strict_email_has_at _ Hre) as Hat.
  induction raw as [|x raw IH]; [by apply elem_of_nil in Hin|].
  cbn [valid_emails].
  apply elem_of_cons in Hin as [<- | Hin].
  - rewrite Hext, Hat, Hre. by left.
  - specialize (IH Hin).
    destruct (existsb (endswith (lower x)) asset_extensions); [done|].
    destruct (contains (lower x) (py "@")); simpl; [|done].
    destruct (match_ strict_email_re (lower x)); [by right | done].
Qed.

(** X7: an address is returned by the email cleanup exactly when it is the
    lower-case form of a candidate, ends in none of the static-asset
    extensions and has the strict shape; the separate test for an at sign
    never rejects anything the strict pattern would accept. *)
Theorem clean_emails_exactly (raw : list str) (e : str) :
  e ∈ clean_emails raw <->
  exists c, c ∈ raw /\ e = lower c /\
    Forall (fun ext => ~ ext `suffix_of` e) asset_extensions /\
    match_ strict_email_re e = true.
Proof.
  rewrite clean_emails_elem. split.
  - intros (c & Hc & -> & Hext & _ & Hre)%valid_emails_elem.
    exists c. by rewrite <- asset_extension_free.
  - intros (c & Hc & -> & Hext%asset_extension_free & Hre).
    by apply valid_emails_intro.
Qed.

Lemma valid_emails_fixed l :
  Forall (fun e => lower e = e /\
                   existsb (endswith e) asset_extensions = false /\
                   match_ strict_email_re e = true) l ->
  valid_emails l = l.
Proof.
  induction 1 as [|e l (Hlow & Hext & Hre) _ IH]; [done|].
  cbn [valid_emails]. rewrite Hlow, Hext, (strict_email_has_at _ Hre), Hre. simpl.
  by rewrite IH.
Qed.

(** X8: cleaning a cleaned email list returns the same addresses, each
    once: the cleanup is idempotent up to the order of the result. *)
Theorem clean_emails_idempotent (raw : list str) :
  clean_emails (clean_emails raw) ≡ₚ clean_emails raw.
Proof.
  assert (Hfixed : valid_emails (clean_emails raw) = clean_emails raw).
  { apply valid_emails_fixed, Forall_forall.
    intros e (c & _ & -> & Hext & _ & Hre)%clean_emails_elem%valid_emails_elem.
    split; [apply lower_idempotent | done]. }
  apply NoDup_Permutation; [apply clean_emails_NoDup | apply clean_emails_NoDup |].
  intros e. by rewrite (clean_emails_elem (clean_emails raw)), Hfixed.
Qed.

Lemma fromkeys_fixed l : forall seen,
  NoDup l -> (forall x, x ∈ l -> x ∉ seen) -> fromkeys seen l = l.
Proof.
  induction l as [|x l IH]; intros seen Hnd Hseen; [done|].
  apply NoDup_cons in Hnd as [Hx Hnd]. cbn [fromkeys].
  rewrite bool_decide_eq_false_2 by (apply Hseen; by left).
  f_equal. apply IH; [done|].
  intros y Hy [-> | Hin]%elem_of_cons; [done|].
  apply (Hseen y); [by right | done].
Qed.

Lemma one_of_intro t c : c ∈ py t -> one_of t c = true.
Proof.
  intros H. unfold one_of. apply existsb_exists. exists c.
  split; [by apply list_elem_of_In | by apply same_eq].
Qed.

Lemma valid_phones_fixed l : Forall indian_mobile l -> valid_phones l = l.
Proof.
  induction 1 as [|p l (Hlen & Hdig & c & rest & -> & Hc) _ IH]; [done|].
  cbn [valid_phones]. rewrite delete_non_digits.
  assert (E : digits_of (c :: rest) = c :: rest).
  { unfold digits_of. clear -Hdig. induction Hdig as [|x k Hx _ IHk]; [done|].
    by rewrite filter_cons, decide_True, IHk. }
  rewrite E, IH. simpl in Hlen. simpl length.
  rewrite (proj2 (Nat.eqb_eq _ _) Hlen), (one_of_intro _ _ Hc). done.
Qed.

(** X9: with a cap that is not negative, cleaning a cleaned phone list
    changes nothing. *)
Theorem clean_phones_idempotent (raw : list str) (max_count : Z) :
  0 <= max_count ->
  clean_phones (clean_phones raw max_count) max_count = clean_phones raw max_count.
Proof.
  intros Hcap. set (l := clean_phones raw max_count).
  assert (Hshape : Forall indian_mobile l).
  { apply Forall_forall. intros p [Hp _]%slice_to_elem%fromkeys_elem.
    revert p Hp. apply Forall_forall, valid_phones_indian_mobile. }
  assert (Hnd : NoDup l) by apply slice_to_NoDup, fromkeys_NoDup.
  assert (Hlen : Z.of_nat (length l) <= max_count) by by apply slice_to_length.
  unfold clean_phones at 1.
  rewrite (valid_phones_fixed l Hshape), (fromkeys_fixed l [] Hnd)
    by (intros x _; apply not_elem_of_nil).
  unfold slice_to. rewrite (proj2 (Z.leb_le 0 max_count) Hcap).
  apply take_ge. lia.
Qed.

(** The default cap, on a page that repeats a number. *)
Lemma clean_phones_idempotent_witness :
  0 <= 3 /\
  clean_phones (clean_phones (findall phone_re repeated_page) 3) 3 =
  clean_phones (findall phone_re repeated_page) 3.
Proof.
  assert (H : 0 <= 3) by lia.
  split; [exact H|]. exact (clean_phones_idempotent _ 3 H).
Defined.

(** X10: a smaller cap returns the beginning of what a larger cap returns:
    raising max_count only appends phones, it never changes or reorders
    those already returned. *)
Theorem clean_phones_cap_prefix (raw : list str) (n m : Z) :
  0 <= n <= m ->
  clean_phones raw n = take (Z.to_nat n) (clean_phones raw m) /\
  clean_phones raw n `prefix_of` clean_phones raw m.
Proof.
  intros [Hn Hm].
  assert (E : clean_phones raw n = take (Z.to_nat n) (clean_phones raw m)).
  { unfold clean_phones, slice_to.
    rewrite (proj2 (Z.leb_le 0 n) Hn), (proj2 (Z.leb_le 0 m)) by lia.
    rewrite take_take. f_equal. lia. }
  split; [exact E|]. rewrite E. apply prefix_take.
Qed.

(** Caps 1 and 3 on a page with two numbers. *)
Lemma clean_phones_cap_prefix_witness :
  0 <= 1 <= 3 /\
  clean_phones (findall phone_re repeated_page) 1 =
  take (Z.to_nat 1) (clean_phones (findall phone_re repeated_page) 3).
Proof.
  assert (H : 0 <= 1 <= 3) by lia.
  split; [exact H|]. exact (proj1 (clean_phones_cap_prefix _ 1 3 H)).
Defined.

(** ** Classifier: the fallback label *)

Lemma first_category_none text table :
  first_category text table = None <->
  Forall (fun entry => Forall (fun kw => contains text kw = false) entry.2) table.
Proof.
  induction table as [|[c kws] table IH]; cbn [first_category].
  - split; [by constructor | done].
  - destruct (existsb (contains text) kws) eqn:E.
    + split; [done|]. intros [Hk _]%Forall_cons. simpl in Hk.
      apply existsb_exists in E as (kw & Hin%list_elem_of_In & Hkw).
      rewrite Forall_forall in Hk. specialize (Hk kw Hin). congruence.
    + rewrite IH. split.
      * intros H. constructor; [|done]. simpl. apply Forall_forall.
        intros kw Hin. apply not_true_iff_false. intros Hkw.
        apply not_true_iff_false in E. apply E, existsb_exists.
        exists kw. split; [by apply list_elem_of_In | done].
      * by intros [_ H]%Forall_cons.
Qed.

Lemma first_category_not_other text category :
  first_category text CATEGORY_KEYWORDS = Some category -> category <> py "Other".
Proof.
  intros (before & kws & after & Htable & Hk & _)%first_category_first.
  assert (Hin : (category, kws) ∈ CATEGORY_KEYWORDS).
  { rewrite Htable, elem_of_app. right. by left. }
  intros ->. revert Hin Hk. unfold CATEGORY_KEYWORDS.
  rewrite list_elem_of_fmap. intros ([c ks] & E & Hin). revert E.
  repeat (apply elem_of_cons in Hin as [[= -> ->] | Hin];
          [intros E; vm_compute in E; try discriminate E;
           injection E as E'; subst kws; intros Hk; discriminate Hk |]).
  by apply elem_of_nil in Hin.
Qed.

(** X12: the classifier answers Other exactly when no keyword of any
    category occurs in the text it classifies. *)
Theorem other_iff_no_keyword (soup : Soup) :
  extract_category soup = py "Other" <->
  Forall (fun entry => Forall (fun kw => contains (category_text soup) kw = false) entry.2)
         CATEGORY_KEYWORDS.
Proof.
  rewrite <- first_category_none. unfold extract_category.
  destruct (first_category _ _) as [c|] eqn:E; [|done].
  split; [|done]. intros ->. by apply first_category_not_other in E.
Qed.

(** ** Page resolver: the contact page *)

Lemma scrape_contact_page_unavailable W url max_phones :
  contact_unavailable W url -> scrape_contact_page W url max_phones = Ok ([], []).
Proof.
  unfold scrape_contact_page.
  intros [[e He] | (cu & e & Hj & Hf)]; run_outcome.
  - by rewrite He.
  - by rewrite Hj, Hf.
Qed.

Lemma scrape_contact_page_loaded W url max_phones html :
  contact_loaded W url html ->
  scrape_contact_page W url max_phones = Ok (extract_contact_info html max_phones).
Proof.
  unfold scrape_contact_page. intros (cu & Hj & Hf). run_outcome.
  by rewrite Hj, Hf.
Qed.


(** X15: when the primary page shows no email and its contact page cannot be
    had, the failure leaves no trace: the record has empty Emails, the
    phones of the primary page, and the category of the primary page. *)
Theorem contact_failure_leaves_primary_facts (W : World) (url : str) (max_phones : Z)
    (html : str) (soup : Soup) :
  page_loaded W url html soup ->
  (extract_contact_info html max_phones).1 = [] ->
  contact_unavailable W url ->
  scrape_website W url max_phones =
    Ok {| Website := url;
          Emails := [];
          Phone_Numbers := join (py ", ") (extract_contact_info html max_phones).2;
          Category := extract_category soup |}.
Proof.
  intros Hl He Hc.
  destruct (scrape_website_loaded W url max_phones html soup Hl) as (ce & cp & Hcp & ->).
  rewrite (scrape_contact_page_unavailable _ _ _ Hc) in Hcp. injection Hcp as <- <-.
  rewrite He. cbn [truthy]. unfold or_else.
  by destruct (extract_contact_info html max_phones).2.
Qed.

(** The site without a contact page. *)
Lemma contact_failure_leaves_primary_facts_witness :
  scrape_website no_contact_world (py "https://shop.example") 3 =
    Ok {| Website := py "https://shop.example";
          Emails := [];
          Phone_Numbers := join (py ", ")
            (extract_contact_info (py "<title>Shop</title> Call 98765 43210") 3).2;
          Category := extract_category [title_tag "Shop"] |}.
Proof.
  apply (contact_failure_leaves_primary_facts no_contact_world _ 3 _ [title_tag "Shop"]).
  - split; reflexivity.
  - by vm_compute.
  - right. exists (py "https://shop.example/contact"),
      (Exception (py "HTTPError") (py "404 Not Found")). split; reflexivity.
Defined.

(** X16: when the primary page shows no email and its contact page is
    fetched, the record takes the emails of the contact page, and the phones
    of the contact page only if the primary page showed none. *)
Theorem contact_page_fills_empty_fields (W : World) (url : str) (max_phones : Z)
    (html : str) (soup : Soup) (contact_html : str) :
  page_loaded W url html soup ->
  (extract_contact_info html max_phones).1 = [] ->
  contact_loaded W url contact_html ->
  scrape_website W url max_phones =
    Ok {| Website := url;
          Emails := join (py ", ") (extract_contact_info contact_html max_phones).1;
          Phone_Numbers := join (py ", ")
            (or_else (extract_contact_info html max_phones).2
                     (extract_contact_info contact_html max_phones).2);
          Category := extract_category soup |}.
Proof.
  intros Hl He Hc.
  destruct (scrape_website_loaded W url max_phones html soup Hl) as (ce & cp & Hcp & ->).
  rewrite (scrape_contact_page_loaded _ _ _ _ Hc) in Hcp.
  destruct (extract_contact_info contact_html max_phones) as [ce' cp'].
  injection Hcp as <- <-. by rewrite He.
Qed.

(** The sample site: the email comes from the contact page, the phone from
    the home page. *)
Lemma contact_page_fills_empty_fields_witness :
  scrape_website sample_world (py "https://shop.example") 3 =
    Ok {| Website := py "https://shop.example";
          Emails := join (py ", ")
            (extract_contact_info (py "Write to Sales@Shop.example or call 9123456789") 3).1;
          Phone_Numbers := join (py ", ")
            (or_else (extract_contact_info (py "<title>Shop</title> Call 98765 43210") 3).2
               (extract_contact_info (py "Write to Sales@Shop.example or call 9123456789") 3).2);
          Category := extract_category [title_tag "Shop"] |}.
Proof.
  apply (contact_page_fills_empty_fields sample_world _ 3
           (py "<title>Shop</title> Call 98765 43210") [title_tag "Shop"]).
  - split; reflexivity.
  - by vm_compute.
  - exists (py "https://shop.example/contact"). split; reflexivity.
Defined.




(** ** Website resolver: which result is taken *)

Lemma first_href_cons r results :
  first_href (r :: results) =
  match link_of r with Some h => Some h | None => first_href results end.
Proof.
  cbn [first_href]. unfold link_of.
  destruct (r !! py "href") as [[|c h]|]; cbn [truthy];
    destruct (r !! py "link") as [[|c' l]|]; done.
Qed.

Lemma link_of_nonempty r h : link_of r = Some h -> h <> [].
Proof.
  unfold link_of.
  destruct (r !! py "href") as [[|c k]|]; cbn [truthy];
    destruct (r !! py "link") as [[|c' l]|]; cbn [truthy]; intros [= <-]; done.
Qed.

Lemma first_href_some results h :
  first_href results = Some h <->
  exists before r after,
    results = before ++ r :: after /\
    Forall (fun r' => link_of r' = None) before /\ link_of r = Some h.
Proof.
  induction results as [|r results IH]; [|rewrite first_href_cons].
  - split; [done|]. intros (before & ? & ? & E & _). by destruct before.
  - destruct (link_of r) as [h'|] eqn:El.
    + split.
      * intros [= ->]. by exists [], r, results.
      * intros ([|r0 before] & r1 & after & E & Hb & Hl).
        -- injection E as <- _. congruence.
        -- injection E as <- _. apply Forall_cons in Hb as [Hb _]. congruence.
    + rewrite IH. split.
      * intros (before & r1 & after & -> & Hb & Hl).
        exists (r :: before), r1, after. split; [done|]. split; [by constructor | done].
      * intros ([|r0 before] & r1 & after & E & Hb & Hl).
        -- injection E as <- _. congruence.
        -- injection E as _ ->. apply Forall_cons in Hb as [_ Hb].
           by exists before, r1, after.
Qed.

Lemma first_href_none results :
  first_href results = None <-> Forall (fun r => link_of r = None) results.
Proof.
  induction results as [|r results IH]; [split; [by constructor | done]|].
  rewrite first_href_cons. destruct (link_of r) eqn:El.
  - split; [done|]. intros [H _]%Forall_cons. congruence.
  - rewrite IH. split; [by constructor | by intros [_ H]%Forall_cons].
Qed.

(** X18: the website the resolver returns is never the empty string: it is
    the href, or else the link, of the first search result that carries a
    non-empty one, results without any being skipped; and the resolver
    answers not-found exactly when the search raises or no result carries a
    link. *)
Theorem search_returns_first_link (W : World) (company_name : str) :
  let q := company_name ++ py " official website" in
  (forall h,
     get_website_from_search W company_name = Ok (Some h) ->
     h <> [] /\
     exists before r after,
       ddgs_text W q = Ok (before ++ r :: after) /\
       Forall (fun r' => link_of r' = None) before /\ link_of r = Some h) /\
  (get_website_from_search W company_name = Ok None <->
   (exists e, ddgs_text W q = Raise e) \/
   (exists results, ddgs_text W q = Ok results /\
      Forall (fun r => link_of r = None) results)).
Proof.
  intros q. unfold get_website_from_search. fold q. run_outcome.
  destruct (ddgs_text W q) as [results|e]; split.
  - intros h [= Hh]. apply first_href_some in Hh as (before & r & after & -> & Hb & Hl).
    split; [by eapply link_of_nonempty|]. by exists before, r, after.
  - split.
    + intros [= Hn%first_href_none]. right. by exists results.
    + intros [[e [=]] | (rs & [= <-] & Hn%first_href_none)]. by rewrite Hn.
  - done.
  - split; [intros _; left; by exists e | done].
Qed.

(** A search whose first result has no link. *)
Lemma search_returns_first_link_witness :
  get_website_from_search second_result_world (py "Shop") = Ok (Some (py "https://shop.example")) /\
  py "https://shop.example" <> [].
Proof.
  assert (H : get_website_from_search second_result_world (py "Shop")
              = Ok (Some (py "https://shop.example"))) by reflexivity.
  split; [exact H|].
  exact (proj1 (proj1 (search_returns_first_link second_result_world (py "Shop")) _ H)).
Defined.

(** ** URL input: normalising twice *)

(** X19: normalisation is idempotent and only ever prepends: the input is a
    suffix of the result, and a normalised URL is normalised to itself. *)
Theorem normalize_idempotent (u : str) :
  normalize (normalize u) = normalize u /\ u `suffix_of` normalize u.
Proof.
  unfold normalize at 2 3 4.
  destruct (existsb (startswith u) [py "http://"; py "https://"]) eqn:E.
  - split; [|done]. unfold normalize. by rewrite E.
  - split; [|by exists (py "https://")].
    unfold normalize.
    assert (H : existsb (startswith (py "https://" ++ u)) [py "http://"; py "https://"] = true).
    { apply has_scheme_startswith. exists u. by right. }
    by rewrite H.
Qed.

(** ** Pipeline driver: the company loop *)

Lemma get_website_from_search_ok W company :
  exists found,
    get_website_from_search W company = Ok found /\
    forall url, found = Some url -> url <> [].
Proof.
  unfold get_website_from_search. run_outcome.
  destruct (ddgs_text W _) as [results|e].
  - exists (first_href results). split; [done|].
    intros url (before & r & after & _ & _ & Hl)%first_href_some.
    by eapply link_of_nonempty.
  - exists None. by split.
Qed.

Lemma scrape_website_ok W url max_phones :
  exists r, scrape_website W url max_phones = Ok r /\ Website r = url.
Proof.
  destruct (page_outcome W url) as [[e He] | (html & soup & Hl)].
  - eexists. split; [by apply scrape_website_failed | done].
  - destruct (scrape_website_loaded W url max_phones html soup Hl) as (? & ? & _ & ->).
    by eexists.
Qed.

Lemma scrape_companies_rows W max_phones companies :
  exists rows,
    scrape_companies W companies max_phones = Ok rows /\
    Forall2 (company_row W max_phones) companies rows.
Proof.
  induction companies as [|company rest (rows & Hrows & IH)]; [by exists []|].
  cbn [scrape_companies].
  destruct (get_website_from_search_ok W company) as (found & Hfound & Hne).
  rewrite Hfound, Hrows. run_outcome.
  destruct found as [url|].
  - specialize (Hne url eq_refl). destruct url as [|c url]; [done|]. cbn [truthy].
    destruct (scrape_website_ok W (c :: url) max_phones) as (r & Hr & Hw).
    rewrite Hr. eexists. split; [reflexivity|].
    constructor; [|done]. split; [done|]. right. by exists (c :: url).
  - eexists. split; [reflexivity|].
    constructor; [|done]. split; [done|]. by left.
Qed.

(** X20: the company loop never raises and appends exactly one row per
    company, in the order of the input and under the name given: the
    not-found row when the search gives no website, and otherwise the record
    of the page resolver for the website found. *)
Theorem company_batch_one_row_each (W : World) (companies : list str) (max_phones : Z) :
  exists rows,
    scrape_companies W companies max_phones = Ok rows /\
    length rows = length companies /\
    map Company rows = companies /\
    Forall2 (company_row W max_phones) companies rows.
Proof.
  destruct (scrape_companies_rows W max_phones companies) as (rows & Hrows & Hall).
  exists rows. split; [done|]. split; [by apply Forall2_length in Hall|]. split; [|done].
  clear Hrows. induction Hall as [|c row cs rows [Hc _] _ IH]; [done|].
  simpl. by rewrite Hc, IH.
Qed.

(** X21: when the search finds a website for none of the companies, every
    row is the not-found row: Website is Not Found, Emails and Phone Numbers
    are empty and Category is Website not found. *)
Theorem company_batch_all_not_found (W : World) (companies : list str) (max_phones : Z) :
  Forall (fun company => get_website_from_search W company = Ok None) companies ->
  scrape_companies W companies max_phones = Ok (map not_found companies).
Proof.
  induction 1 as [|company rest Hnone _ IH]; [done|].
  cbn [scrape_companies]. rewrite Hnone, IH. by run_outcome.
Qed.

(** Two companies while the search is failing. *)
Lemma company_batch_all_not_found_witness :
  scrape_companies offline_world [py "Acme"; py "Globex"] 3 =
  Ok (map not_found [py "Acme"; py "Globex"]).
Proof.
  apply company_batch_all_not_found. by repeat constructor.
Defined.

(** ** Pipeline driver: the URL fields *)

Lemma lstrip_blank s : lstrip s = [] <-> blank s.
Proof.
  unfold blank. induction s as [|c s IH]; [split; [by constructor | done]|].
  cbn [lstrip]. destruct (isspace c) eqn:E.
  - rewrite IH. split; [by constructor | by intros [_ H]%Forall_cons].
  - split; [done|]. intros [H _]%Forall_cons. congruence.
Qed.

Lemma lstrip_head s :
  lstrip s = [] \/ exists c r, lstrip s = c :: r /\ isspace c = false.
Proof.
  induction s as [|c s IH]; [by left|]. cbn [lstrip].
  destruct (isspace c) eqn:E; [done|]. right. by exists c, s.
Qed.

Lemma lstrip_fixed c r : isspace c = false -> lstrip (c :: r) = c :: r.
Proof. intros H. cbn [lstrip]. by rewrite H. Qed.

Lemma lstrip_suffix s : lstrip s `suffix_of` s.
Proof.
  induction s as [|c s IH]; [done|]. cbn [lstrip].
  destruct (isspace c); [by apply suffix_cons_r | done].
Qed.

Lemma lstrip_snoc s c : isspace c = false -> lstrip (s ++ [c]) = lstrip s ++ [c].
Proof.
  intros Hc. induction s as [|x s IH]; simpl; [by rewrite Hc|].
  by destruct (isspace x).
Qed.

Lemma rstrip_prefix s : rstrip s `prefix_of` s.
Proof.
  unfold rstrip. apply prefix_suffix_reverse.
  rewrite reverse_involutive. apply lstrip_suffix.
Qed.

Lemma rstrip_snoc s c : isspace c = false -> rstrip (s ++ [c]) = s ++ [c].
Proof.
  intros Hc. unfold rstrip. rewrite reverse_snoc, lstrip_fixed by done.
  by rewrite reverse_cons, reverse_involutive.
Qed.

(** The last character of [rstrip s], when there is one, is no white space. *)
Lemma rstrip_last s :
  rstrip s = [] \/ exists r c, rstrip s = r ++ [c] /\ isspace c = false.
Proof.
  unfold rstrip. destruct (lstrip_head (reverse s)) as [-> | (c & r & -> & Hc)].
  - by left.
  - right. exists (reverse r), c. by rewrite reverse_cons.
Qed.

Lemma rstrip_cons c r : isspace c = false -> rstrip (c :: r) = c :: rstrip r.
Proof.
  intros Hc. unfold rstrip. by rewrite reverse_cons, lstrip_snoc, reverse_snoc.
Qed.

Lemma lstrip_idempotent s : lstrip (lstrip s) = lstrip s.
Proof.
  destruct (lstrip_head s) as [-> | (c & r & -> & Hc)]; [done | by apply lstrip_fixed].
Qed.

Lemma rstrip_idempotent s : rstrip (rstrip s) = rstrip s.
Proof. unfold rstrip. by rewrite reverse_involutive, lstrip_idempotent. Qed.

Lemma strip_blank s : strip s = [] <-> blank s.
Proof.
  unfold strip. rewrite <- lstrip_blank.
  destruct (lstrip_head s) as [-> | (c & r & -> & Hc)]; [done|].
  by rewrite rstrip_cons.
Qed.

Lemma strip_idempotent s : strip (strip s) = strip s.
Proof.
  unfold strip. destruct (lstrip_head s) as [-> | (c & r & -> & Hc)]; [done|].
  rewrite rstrip_cons by done. rewrite lstrip_fixed by done.
  by rewrite <- rstrip_cons, rstrip_idempotent.
Qed.

(** A stripped string neither starts nor ends with white space. *)
Lemma strip_ends s :
  strip s = [] \/
  (exists c r, strip s = c :: r /\ isspace c = false) /\
  (exists r c, strip s = r ++ [c] /\ isspace c = false).
Proof.
  unfold strip. destruct (lstrip_head s) as [-> | (c & r & -> & Hc)]; [by left|].
  right. split.
  - rewrite rstrip_cons by done. by eexists _, _.
  - destruct (rstrip_last (c :: r)) as [E | H]; [|done].
    by rewrite rstrip_cons in E.
Qed.

Lemma line_break_isspace c : line_break c = true -> isspace c = true.
Proof. destruct c as [[] [] [] [] [] [] [] []]; vm_compute; congruence. Qed.

(** Every character that is no line boundary ends up in a line. *)
Lemma splitlines_from_covers n : forall s line x,
  (length s <= n)%nat -> line_break x = false -> x ∈ line \/ x ∈ s ->
  exists l, l ∈ splitlines_from line s /\ x ∈ l.
Proof.
  induction n as [|n IH]; intros s line x Hlen Hx Hin.
  - destruct s; [|simpl in Hlen; lia]. cbn [splitlines_from].
    destruct Hin as [Hin | Hin]; [|by apply elem_of_nil in Hin].
    destruct line as [|a line]; [by apply elem_of_nil in Hin|].
    exists (a :: line). split; [by left | done].
  - destruct s as [|c s].
    + cbn [splitlines_from].
      destruct Hin as [Hin | Hin]; [|by apply elem_of_nil in Hin].
      destruct line as [|a line]; [by apply elem_of_nil in Hin|].
      exists (a :: line). split; [by left | done].
    + simpl in Hlen. cbn [splitlines_from]. destruct (line_break c) eqn:Hc.
      * destruct Hin as [Hin | Hin]; [exists line; split; [by left | done]|].
        apply elem_of_cons in Hin as [-> | Hin]; [congruence|].
        destruct s as [|c' s']; [by apply elem_of_nil in Hin|]. simpl in Hlen.
        destruct (Char.same "013" c && Char.same "010" c') eqn:Hcrlf.
        -- apply andb_true_iff in Hcrlf as [_ Hlf%same_eq]. subst c'.
           apply elem_of_cons in Hin as [-> | Hin]; [by vm_compute in Hx|].
           destruct (IH s' [] x ltac:(lia) Hx (or_intror Hin)) as (l & Hl & Hxl).
           exists l. split; [by right | done].
        -- destruct (IH (c' :: s') [] x ltac:(simpl; lia) Hx (or_intror Hin))
             as (l & Hl & Hxl).
           exists l. split; [by right | done].
      * apply IH; [lia | done |].
        destruct Hin as [Hin | Hin].
        -- left. rewrite elem_of_app. by left.
        -- apply elem_of_cons in Hin as [-> | Hin]; [|by right].
           left. rewrite elem_of_app. right. by left.
Qed.

Lemma splitlines_covers s x :
  x ∈ s -> line_break x = false -> exists l, l ∈ splitlines s /\ x ∈ l.
Proof.
  intros Hin Hx. apply (splitlines_from_covers (length s)); [lia | done | by right].
Qed.

Lemma truthy_nonempty {A} (l : list A) : truthy l = true <-> l <> [].
Proof. by destruct l. Qed.

Lemma not_blank_char s : ~ blank s -> exists x, x ∈ s /\ isspace x = false.
Proof.
  unfold blank. induction s as [|c s IH]; [intros H; by destruct H|].
  intros H. destruct (isspace c) eqn:E; [|exists c; split; [by left | done]].
  destruct IH as (x & Hx & Hs); [intros Hall; apply H; by constructor|].
  exists x. split; [by right | done].
Qed.

(** X22: every entry of the URL list built from the two input fields is
    non-empty, has no white space at either end, and is the stripped form of
    a line of the text area or of the single-URL field. *)
Theorem url_inputs_are_stripped (urls_text single_url : str) :
  Forall (fun u =>
            u <> [] /\ strip u = u /\
            ((exists line, line ∈ splitlines urls_text /\ u = strip line) \/
             u = strip single_url))
         (url_inputs urls_text single_url).
Proof.
  unfold url_inputs. apply Forall_app. split.
  - destruct (truthy (strip urls_text)); [|constructor].
    apply Forall_forall. intros u (line & -> & Hline)%list_elem_of_fmap.
    apply list_elem_of_filter in Hline as [Hne%truthy_nonempty Hline].
    split; [done|]. split; [apply strip_idempotent|]. left. by exists line.
  - destruct (truthy (strip single_url)) eqn:E; [|constructor].
    apply truthy_nonempty in E. constructor; [|constructor].
    split; [done|]. split; [apply strip_idempotent | by right].
Qed.

Lemma url_inputs_nil (urls_text single_url : str) :
  url_inputs urls_text single_url = [] <-> blank urls_text /\ blank single_url.
Proof.
  unfold url_inputs. split.
  - intros [Htext Hsingle]%app_eq_nil. split.
    + destruct (truthy (strip urls_text)) eqn:E;
        [|by apply strip_blank; destruct (strip urls_text)].
      apply truthy_nonempty in E. rewrite strip_blank in E.
      apply not_blank_char in E as (x & Hx & Hs).
      destruct (splitlines_covers urls_text x Hx) as (line & Hline & Hxl).
      { destruct (line_break x) eqn:Hb; [|done].
        apply line_break_isspace in Hb. congruence. }
      exfalso.
      assert (Hin : strip line ∈
                map strip (filter (fun u => truthy (strip u) = true) (splitlines urls_text))).
      { apply list_elem_of_fmap. exists line. split; [done|].
        apply list_elem_of_filter. split; [|done].
        apply truthy_nonempty. rewrite strip_blank. intros Hbl.
        unfold blank in Hbl. rewrite Forall_forall in Hbl.
        specialize (Hbl x Hxl). congruence. }
      rewrite Htext in Hin. by apply elem_of_nil in Hin.
    + destruct (truthy (strip single_url)) eqn:E; [done|].
      apply strip_blank. by destruct (strip single_url).
  - intros [Htext%strip_blank Hsingle%strip_blank]. by rewrite Htext, Hsingle.
Qed.

(** X23: the URL list is empty, and the warning shown instead of a batch,
    exactly when both input fields hold nothing but white space. *)
Theorem url_inputs_empty_iff_blank (W : World) (netloc_of : str -> outcome str)
    (urls_text single_url : str) (max_phones : Z) :
  (url_inputs urls_text single_url = [] <-> blank urls_text /\ blank single_url) /\
  (scrape_url_inputs W netloc_of urls_text single_url max_phones = Ok None <->
   blank urls_text /\ blank single_url).
Proof.
  split; [apply url_inputs_nil|].
  rewrite <- url_inputs_nil. unfold scrape_url_inputs.
  destruct (url_inputs urls_text single_url) as [|u urls]; [done|].
  cbn [truthy negb]. split; [|done].
  destruct (scrape_urls W netloc_of _ max_phones); run_outcome; discriminate.
Qed.

(** ** Pipeline driver: the URL loop *)

Lemma before_first_no_sep sep s : sep ∉ before_first sep s.
Proof.
  induction s as [|c s IH]; [by apply not_elem_of_nil|]. cbn [before_first].
  destruct (Char.same sep c) eqn:E; [by apply not_elem_of_nil|].
  intros [-> | Hin]%elem_of_cons; [|done].
  apply not_true_iff_false in E. by apply E, same_eq.
Qed.

Lemma remove_all_absent old s : contains s old = false -> remove_all old s O = s.
Proof.
  induction s as [|c s IH]; [done|].
  change (contains (c :: s) old) with (startswith (c :: s) old || contains s old).
  intros [Hhere Hrest]%orb_false_iff. cbn [remove_all].
  rewrite Hhere, andb_false_r. by rewrite IH.
Qed.

(** X24: the display name of the URL path never contains a dot; a leading
    www. does not change it; and for a host without www. it is the host up
    to its first dot. *)
Theorem company_name_of_host (netloc : str) :
  ("."%char ∉ company_name_of netloc) /\
  company_name_of (py "www." ++ netloc) = company_name_of netloc /\
  (contains netloc (py "www.") = false ->
   company_name_of netloc = before_first "." netloc).
Proof.
  unfold company_name_of. split; [apply before_first_no_sep|]. split.
  - f_equal. unfold py. cbn [list_ascii_of_string app].
    cbn [remove_all]. unfold truthy. cbn [andb length Nat.sub].
    assert (H : forall a b c d k, startswith (a :: b :: c :: d :: k) [a; b; c; d] = true).
    { intros. apply startswith_prefix. by exists k. }
    by rewrite H.
  - intros H. by rewrite remove_all_absent.
Qed.

(** A host without www. *)
Lemma company_name_of_host_witness :
  contains (py "shop.example.com") (py "www.") = false /\
  company_name_of (py "shop.example.com") = before_first "." (py "shop.example.com").
Proof.
  assert (H : contains (py "shop.example.com") (py "www.") = false) by reflexivity.
  split; [exact H|].
  exact (proj2 (proj2 (company_name_of_host (py "shop.example.com"))) H).
Defined.

Lemma scrape_urls_rows W netloc_of max_phones urls :
  Forall (fun url => exists netloc, netloc_of url = Ok netloc) urls ->
  exists rows,
    scrape_urls W netloc_of urls max_phones = Ok rows /\
    Forall2 (url_row W netloc_of max_phones) urls rows.
Proof.
  induction 1 as [|url rest [netloc Hn] _ (rows & Hrows & IH)]; [by exists []|].
  cbn [scrape_urls]. rewrite Hn, Hrows.
  destruct (scrape_website_ok W url max_phones) as (r & Hr & Hw).
  rewrite Hr. run_outcome. eexists. split; [reflexivity|].
  constructor; [|done]. by exists netloc.
Qed.

(** X25: when every URL can be parsed, the URL loop appends exactly one row
    per URL, in the order of the input: the record of the page resolver for
    that URL, under the display name of its host. *)
Theorem url_batch_one_row_each (W : World) (netloc_of : str -> outcome str)
    (urls : list str) (max_phones : Z) :
  Forall (fun url => exists netloc, netloc_of url = Ok netloc) urls ->
  exists rows,
    scrape_urls W netloc_of urls max_phones = Ok rows /\
    length rows = length urls /\
    map (fun row => Website (Data row)) rows = urls /\
    Forall2 (url_row W netloc_of max_phones) urls rows.
Proof.
  intros Hok.
  destruct (scrape_urls_rows W netloc_of max_phones urls Hok) as (rows & Hrows & Hall).
  exists rows. split; [done|]. split; [by apply Forall2_length in Hall|]. split; [|done].
  clear Hrows Hok. induction Hall as [|u row us rows (n & _ & _ & _ & Hw) _ IH]; [done|].
  simpl. by rewrite Hw, IH.
Qed.

(** Two URLs of the sample site. *)
Lemma url_batch_one_row_each_witness :
  exists rows,
    scrape_urls sample_world sample_netloc
      [py "https://shop.example"; py "https://down.example"] 3 = Ok rows /\
    length rows = 2%nat.
Proof.
  destruct (url_batch_one_row_each sample_world sample_netloc
              [py "https://shop.example"; py "https://down.example"] 3)
    as (rows & Hrows & Hlen & _).
  { repeat constructor; by eexists. }
  exists rows. by split.
Defined.

(** X26: the URL loop has no handler around the parsing of a URL: when
    urlparse raises on one URL the whole loop raises that error, and the
    rows of the URLs before it are not returned either. *)
Theorem url_batch_halts_on_unparsable_url (W : World) (netloc_of : str -> outcome str)
    (before : list str) (url : str) (after : list str) (max_phones : Z) (e : exn) :
  Forall (fun u => exists netloc, netloc_of u = Ok netloc) before ->
  netloc_of url = Raise e ->
  scrape_urls W netloc_of (before ++ url :: after) max_phones = Raise e.
Proof.
  intros Hok Hraise.
  induction Hok as [|u rest [netloc Hn] _ IH]; cbn [app scrape_urls].
  - by rewrite Hraise.
  - rewrite Hn, IH.
    destruct (scrape_website_ok W u max_phones) as (r & -> & _). by run_outcome.
Qed.

(** The second of three URLs has an unclosed bracket. *)
Lemma url_batch_halts_on_unparsable_url_witness :
  scrape_urls sample_world bracket_netloc
    ([py "https://shop.example"] ++ py "https://[shop" :: [py "https://down.example"]) 3
  = Raise (Exception (py "ValueError") (py "Invalid IPv6 URL")).
Proof.
  apply url_batch_halts_on_unparsable_url.
  - repeat constructor. by eexists.
  - reflexivity.
Defined.

Lemma normalize_has_scheme u : has_scheme (normalize u).
Proof.
  unfold normalize. destruct (existsb _ _) eqn:E; [by apply has_scheme_startswith|].
  exists u. by right.
Qed.

Lemma url_rows_websites W netloc_of max_phones urls rows :
  Forall2 (url_row W netloc_of max_phones) urls rows ->
  map (fun row => Website (Data row)) rows = urls.
Proof.
  induction 1 as [|x row xs rows (n & _ & _ & _ & Hw) _ IH]; [done|].
  simpl. by rewrite Hw, IH.
Qed.

(** X27: the URL path as a whole: with both fields blank it returns without
    a batch; otherwise, when every URL can be parsed, it yields one row per
    non-blank entry, in order, and the Website of every row starts with
    http:// or https://. *)
Theorem url_path_rows (W : World) (netloc_of : str -> outcome str)
    (urls_text single_url : str) (max_phones : Z) :
  Forall (fun url => exists netloc, netloc_of url = Ok netloc)
         (map normalize (url_inputs urls_text single_url)) ->
  (blank urls_text /\ blank single_url /\
   scrape_url_inputs W netloc_of urls_text single_url max_phones = Ok None) \/
  (exists rows,
     scrape_url_inputs W netloc_of urls_text single_url max_phones = Ok (Some rows) /\
     rows <> [] /\
     map (fun row => Website (Data row)) rows = map normalize (url_inputs urls_text single_url) /\
     Forall (fun row => has_scheme (Website (Data row))) rows).
Proof.
  intros Hok. unfold scrape_url_inputs.
  destruct (url_inputs urls_text single_url) as [|u urls] eqn:E.
  - left. apply url_inputs_nil in E as [? ?]. by repeat split.
  - right. cbn [truthy negb].
    destruct (scrape_urls_rows W netloc_of max_phones _ Hok) as (rows & Hrows & Hall).
    rewrite Hrows. run_outcome. exists rows. split; [done|].
    pose proof (url_rows_websites _ _ _ _ _ Hall) as Hweb.
    split; [|split; [done|]].
    + intros ->. discriminate Hweb.
    + apply Forall_forall. intros row Hrow.
      assert (Hin : Website (Data row) ∈ map (fun row => Website (Data row)) rows).
      { apply list_elem_of_fmap. by exists row. }
      rewrite Hweb in Hin.
      apply (list_elem_of_fmap normalize (u :: urls)) in Hin as (v & -> & _).
      apply normalize_has_scheme.
Qed.

(** The sample text area and an empty single-URL field. *)
Lemma url_path_rows_witness :
  exists rows,
    scrape_url_inputs sample_world sample_netloc sample_urls_text [] 3 = Ok (Some rows) /\
    map (fun row => Website (Data row)) rows
      = [py "https://shop.example"; py "https://down.example"].
Proof.
  destruct (url_path_rows sample_world sample_netloc sample_urls_text [] 3)
    as [(Hb & _) | (rows & Hrows & _ & Hweb & _)].
  - apply Forall_forall. intros url _. by eexists.
  - exfalso. unfold blank in Hb. apply Forall_inv in Hb. discriminate Hb.
  - exists rows. split; [exact Hrows|]. rewrite Hweb. reflexivity.
Defined.

(** ** Extraction: the alphabet of an email *)

Lemma none_of_char (p : ascii -> bool) x s :
  p x = false -> Forall (fun c => p c = true) s -> filter (fun c => c = x) s = [].
Proof.
  intros Hp. induction 1 as [|c s Hc _ IH]; [done|].
  rewrite filter_cons. destruct (decide (c = x)) as [->|]; [congruence | done].
Qed.

Lemma lower_char_alphabet c :
  local_char c = true \/ c = "@"%char -> email_alphabet (Char.lower_char c) = true.
Proof.
  destruct c as [[] [] [] [] [] [] [] []]; vm_compute;
    intros [H | H]; (reflexivity || discriminate H).
Qed.

Lemma label_char_local c : label_char c = true -> local_char c = true.
Proof.
  destruct c as [[] [] [] [] [] [] [] []]; vm_compute; intros H; (reflexivity || discriminate H).
Qed.

Lemma tail_char_local c : tail_char c = true -> local_char c = true.
Proof.
  destruct c as [[] [] [] [] [] [] [] []]; vm_compute; intros H; (reflexivity || discriminate H).
Qed.

(** X28: every email extracted from markup is made of lower-case letters,
    digits and the signs _ . + - @ only (no blank, comma or newline, so the
    joined Emails field separates them unambiguously), and contains exactly
    one at sign. *)
Theorem extracted_emails_alphabet (html : str) (max_phones : Z) :
  Forall (fun e =>
            Forall (fun c => email_alphabet c = true) e /\
            length (filter (fun c => c = "@"%char) e) = 1%nat)
         (extract_contact_info html max_phones).1.
Proof.
  apply Forall_forall. intros e He.
  apply clean_emails_elem, valid_emails_elem in He as (c & Hc & -> & _ & _ & Hre).
  split.
  - apply email_candidate_shape in Hc as (l & d & t & -> & _ & Hl & _ & Hd & _ & Ht).
    unfold lower. apply Forall_map, Forall_forall. intros x Hx.
    apply lower_char_alphabet.
    rewrite elem_of_app, elem_of_cons, elem_of_app, elem_of_cons in Hx.
    rewrite Forall_forall in Hl, Hd, Ht.
    destruct Hx as [Hx | [-> | [Hx | [-> | Hx]]]].
    + left. by apply Hl.
    + by right.
    + left. by apply label_char_local, Hd.
    + by left.
    + left. by apply tail_char_local, Ht.
  - apply strict_email_shape in Hre as (l & d & t & nl & -> & _ & Hl & _ & Hd & _ & Ht & Hnl).
    change (l ++ "@"%char :: d ++ "."%char :: t ++ nl)
      with (l ++ ["@"%char] ++ d ++ ["."%char] ++ t ++ nl).
    rewrite !filter_app, !length_app.
    rewrite (none_of_char local_char "@" l), (none_of_char label_char "@" d),
      (none_of_char letter "@" t) by done.
    by destruct Hnl as [-> | ->].
Qed.

(** ** Classifier: the order of the table *)

(** X13: when an entry of the table has a keyword that occurs in the text
    classified and no entry before it has one, the label is that entry's:
    the order of the table breaks ties, not the number or length of the
    keywords that match. *)
Theorem first_matching_category_wins (soup : Soup) (before : list (str * list str))
    (category : str) (keywords : list str) (after : list (str * list str)) :
  CATEGORY_KEYWORDS = before ++ (category, keywords) :: after ->
  existsb (contains (category_text soup)) keywords = true ->
  Forall (fun entry => existsb (contains (category_text soup)) entry.2 = false) before ->
  extract_category soup = category.
Proof.
  intros Htable Hk Hb. unfold extract_category.
  assert (H : first_category (category_text soup) CATEGORY_KEYWORDS = Some category).
  { apply first_category_first. by exists before, keywords, after. }
  by rewrite H.
Qed.

(** A description with keywords of two categories: shampoo (Hair Care) comes
    before perfume in the table. *)
Lemma first_matching_category_wins_witness :
  extract_category [meta_tag "name" "description" "Perfume and shampoo"] = py "Hair Care".
Proof.
  apply (first_matching_category_wins _ (take 1 CATEGORY_KEYWORDS) _
           (map py ["shampoo"; "conditioner"; "hair oil"; "haircare"; "hair mask"]%string)
           (drop 2 CATEGORY_KEYWORDS)).
  - reflexivity.
  - reflexivity.
  - repeat constructor.
Defined.

(** The page about perfume: its description has content. *)
Lemma category_text_agrees_witness :
  category_text perfume_soup = spec_category_text perfume_soup.
Proof.
  apply category_text_agrees. right. by vm_compute.
Defined.
